(** * The find widget of the chat view: search indexing and match navigation

    A shallow embedding of [useFindWidget] (both revisions of the hook that
    the repository carries) and the properties its specification states about
    the history scan, the re-selection of the current match, navigation with
    wrap-around and the open/closed gating.

    JavaScript strings are modelled by [string]: the scan only compares code
    units for equality and counts them.  [String.prototype.toLowerCase] is a
    runtime-library function; the development is parametric in it. *)

From Stdlib Require Import String Ascii List Arith Bool Lia Sorted.
Import ListNotations.
Open Scope string_scope.
Open Scope list_scope.
Open Scope nat_scope.

(** ** Strings as the runtime sees them *)

Module JsString.

(** The suffix of [s] that starts at code unit [n]. *)
Fixpoint drop (n : nat) (s : string) : string :=
  match n, s with
  | 0, _ => s
  | S _, EmptyString => EmptyString
  | S n', String _ s' => drop n' s'
  end.

(** First position [k' >= k] (positions counted from [k] at the head of
    [s]) at which [q] occurs in [s]. *)
Fixpoint indexOfAux (s q : string) (k : nat) : option nat :=
  if prefix q s then Some k
  else match s with
       | EmptyString => None
       | String _ s' => indexOfAux s' q (S k)
       end.

(** [s.indexOf(q, position)]: the start position is clamped to the length
    of [s]; [None] stands for the result [-1]. *)
Definition indexOf (s q : string) (position : nat) : option nat :=
  let start := Nat.min position (String.length s) in
  indexOfAux (drop start s) q start.

(** [parts.join("")] *)
Definition join (parts : list string) : string := String.concat "" parts.

(** ASCII case folding, the instance of [toLowerCase] used in examples. *)
Definition lowerAscii (c : ascii) : ascii :=
  let n := nat_of_ascii c in
  if (65 <=? n) && (n <=? 90) then ascii_of_nat (n + 32) else c.

Fixpoint asciiToLowerCase (s : string) : string :=
  match s with
  | EmptyString => EmptyString
  | String c s' => String (lowerAscii c) (asciiToLowerCase s')
  end.

End JsString.
Import JsString.

(** ** Data model *)

Record Rectangle := mkRectangle {
  top : nat; left : nat; width : nat; height : nat
}.

(** [SearchMatch] of [findWidgetSearch]: [index] is the ordinal;
    [messageIndex], [messageId] and [overlayRectangle] are optional. *)
Record SearchMatch := mkSearchMatch {
  index : nat;
  messageIndex : option nat;
  messageId : option string;
  overlayRectangle : option Rectangle
}.

Inductive MessagePart :=
| TextMessagePart (text : string)
| ImageMessagePart (imageUrl : string).

(** [MessageContent = string | MessagePart[]]; the hook's third branch, for
    a content that is neither, has no value of this type to apply to. *)
Inductive MessageContent :=
| ContentString (s : string)
| ContentParts (parts : list MessagePart).

Record ChatMessage := mkChatMessage {
  id : string;
  role : string;
  content : MessageContent
}.

Record ChatHistoryItemWithMessageId := mkItem { message : ChatMessage }.

Record SearchConfiguration := mkConfig {
  searchTerm : string;
  caseSensitive : bool;
  useRegex : bool
}.

(** ** The history scan shared by both revisions *)

Section Scan.

Variable toLowerCase : string -> string.

(** [const query = caseSensitive ? searchTerm : searchTerm.toLowerCase()] *)
Definition queryOf (cfg : SearchConfiguration) : string :=
  if caseSensitive cfg then searchTerm cfg else toLowerCase (searchTerm cfg).

(** [textContent]: a string as it is, an array through
    [map(part => part.type === "text" ? part.text : "").join("")]. *)
Definition textContentOf (c : MessageContent) : string :=
  match c with
  | ContentString s => s
  | ContentParts parts =>
      join (map (fun part => match part with
                             | TextMessagePart text => text
                             | ImageMessagePart _ => ""
                             end) parts)
  end.

Definition textToCheckOf (cfg : SearchConfiguration) (c : MessageContent) : string :=
  if caseSensitive cfg then textContentOf c else toLowerCase (textContentOf c).

Section Loop.
(** The element pushed for an occurrence, given the results so far and
    the position found.  The hook pushes a [SearchMatch] that ignores the
    position; the traced scan below also keeps the position. *)
Context {A : Type} (push : list A -> nat -> A).

(** [let startIndex = 0;
     while ((startIndex = text.indexOf(query, startIndex)) !== -1) {
       results.push(...); startIndex += query.length }]
    [fuel] bounds the number of iterations.  [scanItem] gives one more than
    the length of the text, which a non-empty query never uses up. *)
Fixpoint whileIndexOf (fuel : nat) (textToCheck query : string)
         (startIndex : nat) (results : list A) : list A :=
  match fuel with
  | 0 => results
  | S fuel' =>
      match indexOf textToCheck query startIndex with
      | None => results
      | Some found =>
          whileIndexOf fuel' textToCheck query
                       (found + String.length query)
                       (results ++ [push results found])
      end
  end.
End Loop.

Section ForEach.
Context {A : Type}
        (push : ChatHistoryItemWithMessageId -> nat -> list A -> nat -> A).
Variable cfg : SearchConfiguration.

(** The callback of [history.forEach]. *)
Definition scanItem (item : ChatHistoryItemWithMessageId) (historyIndex : nat)
           (results : list A) : list A :=
  if String.eqb (role (message item)) "system" then results
  else
    let textToCheck := textToCheckOf cfg (content (message item)) in
    whileIndexOf (push item historyIndex)
                 (S (String.length textToCheck))
                 textToCheck (queryOf cfg) 0 results.

Fixpoint forEachFrom (historyIndex : nat)
         (history : list ChatHistoryItemWithMessageId)
         (results : list A) : list A :=
  match history with
  | [] => results
  | item :: rest =>
      forEachFrom (S historyIndex) rest (scanItem item historyIndex results)
  end.

(** [results] after the guard on the empty query and the [forEach]. *)
Definition scanHistory (history : list ChatHistoryItemWithMessageId) : option (list A) :=
  if String.eqb (queryOf cfg) "" then None
  else Some (forEachFrom 0 history []).
End ForEach.

End Scan.

(** ** Widget state

    The hook's props ([history], [disabled], the mounted virtualization
    handle, the measured header height), its React state, the
    [prevSearchTerm] ref of the later revision, its timers, and a log of the
    calls made to the external collaborators. *)

(** The arguments [updateHighlights] closes over:
    [searchWithinContainer(searchRef, searchTerm,
       { caseSensitive, useRegex, offsetHeight: headerHeight })]. *)
Record HighlightQuery := mkHighlightQuery {
  hqTerm : string;
  hqCaseSensitive : bool;
  hqUseRegex : bool;
  hqOffsetHeight : nat
}.

Inductive Effect :=
| ScrollToIndex (index : nat)
| SearchWithinContainer (q : HighlightQuery).

Record WidgetState := mkState {
  history : list ChatHistoryItemWithMessageId;
  disabled : bool;
  virtuosoMounted : bool;
  headerHeight : nat;
  open : bool;
  config : SearchConfiguration;
  matches : list SearchMatch;
  currentMatch : option SearchMatch;
  visibleHighlights : list SearchMatch;
  prevSearchTerm : string;
  interval : option HighlightQuery;
  pendingTimeouts : list HighlightQuery;
  log : list Effect
}.

Definition setMatches (v : list SearchMatch) (st : WidgetState) : WidgetState :=
  mkState (history st) (disabled st) (virtuosoMounted st) (headerHeight st)
          (open st) (config st) v (currentMatch st) (visibleHighlights st)
          (prevSearchTerm st) (interval st) (pendingTimeouts st) (log st).

Definition setCurrentMatch (v : option SearchMatch) (st : WidgetState) : WidgetState :=
  mkState (history st) (disabled st) (virtuosoMounted st) (headerHeight st)
          (open st) (config st) (matches st) v (visibleHighlights st)
          (prevSearchTerm st) (interval st) (pendingTimeouts st) (log st).

Definition setVisibleHighlights (v : list SearchMatch) (st : WidgetState) : WidgetState :=
  mkState (history st) (disabled st) (virtuosoMounted st) (headerHeight st)
          (open st) (config st) (matches st) (currentMatch st) v
          (prevSearchTerm st) (interval st) (pendingTimeouts st) (log st).

Definition setPrevSearchTerm (v : string) (st : WidgetState) : WidgetState :=
  mkState (history st) (disabled st) (virtuosoMounted st) (headerHeight st)
          (open st) (config st) (matches st) (currentMatch st)
          (visibleHighlights st) v (interval st) (pendingTimeouts st)
          (log st).

Definition setInterval (v : option HighlightQuery) (st : WidgetState) : WidgetState :=
  mkState (history st) (disabled st) (virtuosoMounted st) (headerHeight st)
          (open st) (config st) (matches st) (currentMatch st)
          (visibleHighlights st) (prevSearchTerm st) v (pendingTimeouts st)
          (log st).

Definition setPendingTimeouts (v : list HighlightQuery) (st : WidgetState) : WidgetState :=
  mkState (history st) (disabled st) (virtuosoMounted st) (headerHeight st)
          (open st) (config st) (matches st) (currentMatch st)
          (visibleHighlights st) (prevSearchTerm st) (interval st) v
          (log st).

Definition emit (e : Effect) (st : WidgetState) : WidgetState :=
  mkState (history st) (disabled st) (virtuosoMounted st) (headerHeight st)
          (open st) (config st) (matches st) (currentMatch st)
          (visibleHighlights st) (prevSearchTerm st) (interval st)
          (pendingTimeouts st) (log st ++ [e]).

Definition setOpen (v : bool) (st : WidgetState) : WidgetState :=
  mkState (history st) (disabled st) (virtuosoMounted st) (headerHeight st)
          v (config st) (matches st) (currentMatch st)
          (visibleHighlights st) (prevSearchTerm st) (interval st)
          (pendingTimeouts st) (log st).

Definition setConfig (v : SearchConfiguration) (st : WidgetState) : WidgetState :=
  mkState (history st) (disabled st) (virtuosoMounted st) (headerHeight st)
          (open st) v (matches st) (currentMatch st)
          (visibleHighlights st) (prevSearchTerm st) (interval st)
          (pendingTimeouts st) (log st).

Definition setHistory (v : list ChatHistoryItemWithMessageId) (st : WidgetState) : WidgetState :=
  mkState v (disabled st) (virtuosoMounted st) (headerHeight st)
          (open st) (config st) (matches st) (currentMatch st)
          (visibleHighlights st) (prevSearchTerm st) (interval st)
          (pendingTimeouts st) (log st).

Definition setDisabled (v : bool) (st : WidgetState) : WidgetState :=
  mkState (history st) v (virtuosoMounted st) (headerHeight st)
          (open st) (config st) (matches st) (currentMatch st)
          (visibleHighlights st) (prevSearchTerm st) (interval st)
          (pendingTimeouts st) (log st).

Definition setHeaderHeight (v : nat) (st : WidgetState) : WidgetState :=
  mkState (history st) (disabled st) (virtuosoMounted st) v
          (open st) (config st) (matches st) (currentMatch st)
          (visibleHighlights st) (prevSearchTerm st) (interval st)
          (pendingTimeouts st) (log st).

(** The state of a freshly mounted hook. *)
Definition initialState (h : list ChatHistoryItemWithMessageId)
           (isDisabled mounted : bool) : WidgetState :=
  mkState h isDisabled mounted 0 false (mkConfig "" false false)
          [] None [] "" None [] [].

(** ** Navigation, the same in both revisions *)

(** [scrollToMatch]: the current match is set, and one centred
    [scrollToIndex] is issued when the match has a [messageIndex] and the
    handle is mounted. *)
Definition scrollToMatch (m : SearchMatch) (st : WidgetState) : WidgetState :=
  let st' := setCurrentMatch (Some m) st in
  match messageIndex m with
  | Some i => if virtuosoMounted st then emit (ScrollToIndex i) st' else st'
  | None => st'
  end.

(** [matches[newIndex]] is [undefined] out of range; [scrollToMatch] then
    throws a [TypeError] on reading [match.messageIndex], which [None]
    stands for. *)
Definition scrollToNth (newIndex : nat) (st : WidgetState) : option WidgetState :=
  match nth_error (matches st) newIndex with
  | Some newMatch => Some (scrollToMatch newMatch st)
  | None => None
  end.

Definition nextMatch (st : WidgetState) : option WidgetState :=
  match currentMatch st with
  | None => Some st
  | Some cm =>
      if List.length (matches st) =? 0 then Some st
      else scrollToNth ((index cm + 1) mod List.length (matches st)) st
  end.

Definition previousMatch (st : WidgetState) : option WidgetState :=
  match currentMatch st with
  | None => Some st
  | Some cm =>
      if List.length (matches st) =? 0 then Some st
      else scrollToNth (if index cm =? 0 then List.length (matches st) - 1
                        else index cm - 1) st
  end.

(** [n] calls in a row; an exception ends the sequence. *)
Fixpoint repeatCall (f : WidgetState -> option WidgetState) (n : nat)
         (st : WidgetState) : option WidgetState :=
  match n with
  | 0 => Some st
  | S n' => match f st with
            | Some st' => repeatCall f n' st'
            | None => None
            end
  end.

(** ** Highlights of the mounted messages *)

Section Highlights.

(** [searchWithinContainer] queries the rendered DOM of the container; it
    is a collaborator of the hook and a parameter here. *)
Variable searchWithinContainer : HighlightQuery -> list SearchMatch.

(** The arguments an [updateHighlights] closure created in state [st]
    carries. *)
Definition highlightQueryOf (st : WidgetState) : HighlightQuery :=
  mkHighlightQuery (searchTerm (config st)) (caseSensitive (config st))
                   (useRegex (config st)) (headerHeight st).

Definition updateHighlightsWith (q : HighlightQuery) (st : WidgetState) : WidgetState :=
  setVisibleHighlights (searchWithinContainer q)
                       (emit (SearchWithinContainer q) st).

Definition updateHighlights (st : WidgetState) : WidgetState :=
  updateHighlightsWith (highlightQueryOf st) st.

End Highlights.

(** ** What happens to a mounted hook

    The key and button handlers ([OpenShortcut]: the primary modifier with
    F; [Dismiss]: Escape in the input, or the close button; [Next] and
    [Previous]: Enter and Shift+Enter in the input, or the arrows), the
    debounced term settling, the props changing, React running an effect
    again, and the timers firing.  [HighlightUpdateRequested] is a call of
    the [runHighlightUpdate] that the later revision returns to its
    caller. *)

Inductive Event :=
| OpenShortcut
| Dismiss
| Next
| Previous
| ToggleCaseSensitive
| TermEmitted (term : string)
| HistoryReplaced (h : list ChatHistoryItemWithMessageId)
| DisabledSet (b : bool)
| HeaderMeasured (h : nat)
| SearchEffectRuns
| HighlightEffectRuns
| IntervalTick
| TimeoutFires
| ContainerClicked
| HighlightUpdateRequested.

Definition toggleCaseSensitive (st : WidgetState) : WidgetState :=
  setConfig (mkConfig (searchTerm (config st))
                      (negb (caseSensitive (config st)))
                      (useRegex (config st))) st.

Definition setSearchTerm (term : string) (st : WidgetState) : WidgetState :=
  setConfig (mkConfig term (caseSensitive (config st)) (useRegex (config st))) st.

(** [a === b] on optional numbers and optional strings. *)
Definition optNatEq (a b : option nat) : bool :=
  match a, b with
  | Some x, Some y => x =? y
  | None, None => true
  | _, _ => false
  end.

Definition optStringEq (a b : option string) : bool :=
  match a, b with
  | Some x, Some y => String.eqb x y
  | None, None => true
  | _, _ => false
  end.

(** Truthiness of an optional string: present and not empty. *)
Definition truthy (a : option string) : bool :=
  match a with
  | Some s => negb (String.eqb s "")
  | None => false
  end.

(** ** The earlier revision *)

Module Earlier.

Inductive ScrollToMatchOption := closest | first | none.

(** [{ index: results.length, messageIndex: historyIndex }] *)
Definition pushMatch (item : ChatHistoryItemWithMessageId) (historyIndex : nat)
           (results : list SearchMatch) (found : nat) : SearchMatch :=
  mkSearchMatch (List.length results) (Some historyIndex) None None.

Section Hook.
Variable toLowerCase : string -> string.
Variable searchWithinContainer : HighlightQuery -> list SearchMatch.

(** [refreshSearch(scrollTo)]: the guard on the empty query, the scan,
    [setMatches(results)], and under [searchTerm.length > 1 && results.length]
    the two tests on [scrollTo].  State setters take effect after the call,
    so [currentMatch] is read from the state the call started in. *)
Definition refreshSearch (scrollTo : ScrollToMatchOption) (st : WidgetState) : WidgetState :=
  match scanHistory toLowerCase pushMatch (config st) (history st) with
  | None => setMatches [] st
  | Some results =>
      let st1 := setMatches results st in
      if (1 <? String.length (searchTerm (config st)))
         && negb (List.length results =? 0)
      then
        let st2 := match scrollTo, results with
                   | first, r0 :: _ => scrollToMatch r0 st1
                   | _, _ => st1
                   end in
        match scrollTo with
        | none =>
            match currentMatch st with
            | Some cm =>
                match find (fun r => optNatEq (messageIndex r) (messageIndex cm))
                           results with
                | Some matchingResult => setCurrentMatch (Some matchingResult) st2
                | None => setCurrentMatch (hd_error results) st2
                end
            | None => setCurrentMatch (hd_error results) st2
            end
        | _ => st2
        end
      else st1
  end.

(** [useEffect(() => { if (disabled || !open) setMatches([]);
                       else refreshSearch("first") }, ...)] *)
Definition searchEffect (st : WidgetState) : WidgetState :=
  if disabled st || negb (open st) then setMatches [] st
  else refreshSearch first st.

(** The highlight effect: the clean-up of its previous run clears the
    poll; then the gate, or one update and a new poll. *)
Definition highlightEffect (st : WidgetState) : WidgetState :=
  let st0 := setInterval None st in
  if negb (open st) || disabled st then setVisibleHighlights [] st0
  else setInterval (Some (highlightQueryOf st0))
                   (updateHighlights searchWithinContainer st0).

Definition handle (e : Event) (st : WidgetState) : option WidgetState :=
  match e with
  | OpenShortcut => Some (setOpen true st)
  | Dismiss => Some (setOpen false st)
  | Next => nextMatch st
  | Previous => previousMatch st
  | ToggleCaseSensitive => Some (toggleCaseSensitive st)
  | TermEmitted term => Some (setSearchTerm term st)
  | HistoryReplaced h => Some (setHistory h st)
  | DisabledSet b => Some (setDisabled b st)
  | HeaderMeasured h => Some (setHeaderHeight h st)
  | SearchEffectRuns => Some (searchEffect st)
  | HighlightEffectRuns => Some (highlightEffect st)
  | IntervalTick =>
      match interval st with
      | Some q => Some (updateHighlightsWith searchWithinContainer q st)
      | None => Some st
      end
  | TimeoutFires | ContainerClicked | HighlightUpdateRequested => Some st
  end.
End Hook.

End Earlier.

(** ** The later revision *)

Module Later.

(** [{ index: results.length, messageIndex: historyIndex,
       messageId: item.message.id }] *)
Definition pushMatch (item : ChatHistoryItemWithMessageId) (historyIndex : nat)
           (results : list SearchMatch) (found : nat) : SearchMatch :=
  mkSearchMatch (List.length results) (Some historyIndex)
                (Some (id (message item))) None.

(** The same push, keeping next to each match the position at which its
    occurrence was found. *)
Definition pushTraced (item : ChatHistoryItemWithMessageId) (historyIndex : nat)
           (results : list (SearchMatch * nat)) (found : nat) : SearchMatch * nat :=
  (pushMatch item historyIndex (map fst results) found, found).

(** The predicate given to [results.find] when the term is unchanged. *)
Definition relocates (cm r : SearchMatch) : bool :=
  (truthy (messageId cm) && optStringEq (messageId r) (messageId cm))
  || (negb (truthy (messageId cm)) && optNatEq (messageIndex r) (messageIndex cm)).

Section Hook.
Variable toLowerCase : string -> string.
Variable searchWithinContainer : HighlightQuery -> list SearchMatch.

(** The array handed to [setMatches]. *)
Definition indexMatches (cfg : SearchConfiguration)
           (h : list ChatHistoryItemWithMessageId) : list SearchMatch :=
  match scanHistory toLowerCase pushMatch cfg h with
  | None => []
  | Some results => results
  end.

Definition tracedMatches (cfg : SearchConfiguration)
           (h : list ChatHistoryItemWithMessageId) : list (SearchMatch * nat) :=
  match scanHistory toLowerCase pushTraced cfg h with
  | None => []
  | Some results => results
  end.

(** [refreshSearch()]: the guard on the empty query, the scan,
    [setMatches(results)], the re-selection by comparison of [searchTerm]
    with the [prevSearchTerm] ref, and the deferred [updateHighlights]. *)
Definition refreshSearch (st : WidgetState) : WidgetState :=
  match scanHistory toLowerCase pushMatch (config st) (history st) with
  | None => setMatches [] st
  | Some results =>
      let st1 := setMatches results st in
      let st2 :=
        if negb (String.eqb (searchTerm (config st)) (prevSearchTerm st)) then
          let st' := setPrevSearchTerm (searchTerm (config st)) st1 in
          match results with
          | r0 :: _ => scrollToMatch r0 st'
          | [] => st'
          end
        else
          match currentMatch st with
          | Some cm =>
              match find (relocates cm) results with
              | Some matchingResult => setCurrentMatch (Some matchingResult) st1
              | None => setCurrentMatch (hd_error results) st1
              end
          | None =>
              match results with
              | r0 :: _ => setCurrentMatch (Some r0) st1
              | [] => st1
              end
          end in
      setPendingTimeouts (pendingTimeouts st2 ++ [highlightQueryOf st]) st2
  end.

Definition searchEffect (st : WidgetState) : WidgetState :=
  if disabled st || negb (open st) then setMatches [] st
  else refreshSearch st.

Definition handle (e : Event) (st : WidgetState) : option WidgetState :=
  match e with
  | OpenShortcut => Some (setOpen true st)
  | Dismiss => Some (setOpen false st)
  | Next => nextMatch st
  | Previous => previousMatch st
  | ToggleCaseSensitive => Some (toggleCaseSensitive st)
  | TermEmitted term => Some (setSearchTerm term st)
  | HistoryReplaced h => Some (setHistory h st)
  | DisabledSet b => Some (setDisabled b st)
  | HeaderMeasured h => Some (setHeaderHeight h st)
  | SearchEffectRuns => Some (searchEffect st)
  | TimeoutFires =>
      match pendingTimeouts st with
      | q :: rest =>
          Some (updateHighlightsWith searchWithinContainer q
                                     (setPendingTimeouts rest st))
      | [] => Some st
      end
  | ContainerClicked =>
      if open st then Some (updateHighlights searchWithinContainer st)
      else Some st
  | HighlightUpdateRequested =>
      Some (updateHighlights searchWithinContainer st)
  | HighlightEffectRuns | IntervalTick => Some st
  end.

(** A run of events; an exception ends it. *)
Fixpoint run (es : list Event) (st : WidgetState) : option WidgetState :=
  match es with
  | [] => Some st
  | e :: rest => match handle e st with
                 | Some st' => run rest st'
                 | None => None
                 end
  end.
End Hook.

End Later.

(** ** The reference scan of the specification *)

Module Reference.

(** One occurrence: the position of its message in the history, the
    message, and the offset of the occurrence in the scanned text. *)
Record Hit := mkHit {
  hitMessageIndex : nat;
  hitItem : ChatHistoryItemWithMessageId;
  hitOffset : nat
}.

(** Only the text-typed parts, in declaration order. *)
Fixpoint textsOf (parts : list MessagePart) : list string :=
  match parts with
  | [] => []
  | TextMessagePart text :: rest => text :: textsOf rest
  | ImageMessagePart _ :: rest => textsOf rest
  end.

Definition flatten (c : MessageContent) : string :=
  match c with
  | ContentString s => s
  | ContentParts parts => fold_right String.append "" (textsOf parts)
  end.

(** Brute-force scan: every position of [text] is visited from left to
    right ([pos] is the position of its head); a position at which [query]
    starts is recorded and the rest of the matched span is skipped. *)
Fixpoint occurrences (query : string) (skip pos : nat) (text : string) : list nat :=
  match text with
  | EmptyString => []
  | String _ rest =>
      match skip with
      | S skip' => occurrences query skip' (S pos) rest
      | 0 =>
          if prefix query text
          then pos :: occurrences query (String.length query - 1) (S pos) rest
          else occurrences query 0 (S pos) rest
      end
  end.

Section Ref.
Variable toLowerCase : string -> string.

Definition foldCase (cfg : SearchConfiguration) (s : string) : string :=
  if caseSensitive cfg then s else toLowerCase s.

Definition hitsOfItem (cfg : SearchConfiguration) (historyIndex : nat)
           (item : ChatHistoryItemWithMessageId) : list Hit :=
  if String.eqb (role (message item)) "system" then []
  else map (mkHit historyIndex item)
           (occurrences (foldCase cfg (searchTerm cfg)) 0 0
                        (foldCase cfg (flatten (content (message item))))).

Fixpoint hitsFrom (cfg : SearchConfiguration) (historyIndex : nat)
         (h : list ChatHistoryItemWithMessageId) : list Hit :=
  match h with
  | [] => []
  | item :: rest =>
      hitsOfItem cfg historyIndex item ++ hitsFrom cfg (S historyIndex) rest
  end.

(** No hit at all for an empty query (the query as it is scanned for). *)
Definition hits (cfg : SearchConfiguration)
           (h : list ChatHistoryItemWithMessageId) : list Hit :=
  if String.eqb (foldCase cfg (searchTerm cfg)) "" then []
  else hitsFrom cfg 0 h.

(** The elements of [l] with their positions, counted from [base]. *)
Definition enumFrom {A : Type} (base : nat) (l : list A) : list (nat * A) :=
  combine (seq base (List.length l)) l.

Definition matchOfHit (ordinal : nat) (hit : Hit) : SearchMatch :=
  mkSearchMatch ordinal (Some (hitMessageIndex hit))
                (Some (id (message (hitItem hit)))) None.

(** The ordinal is a running counter over the whole scan. *)
Definition scan (cfg : SearchConfiguration)
           (h : list ChatHistoryItemWithMessageId) : list SearchMatch :=
  map (fun p => matchOfHit (fst p) (snd p)) (enumFrom 0 (hits cfg h)).
End Ref.

End Reference.

(** ** Notions used in the statements *)

(** The pushes of one message, given the offsets of its occurrences. *)
Definition pushAll {A : Type} (push : list A -> nat -> A)
           (offsets : list nat) (results : list A) : list A :=
  fold_left (fun acc found => acc ++ [push acc found]) offsets results.

Definition pushHits {A : Type}
           (push : ChatHistoryItemWithMessageId -> nat -> list A -> nat -> A)
           (hs : list Reference.Hit) (results : list A) : list A :=
  fold_left (fun acc hit =>
               acc ++ [push (Reference.hitItem hit) (Reference.hitMessageIndex hit)
                            acc (Reference.hitOffset hit)])
            hs results.

(** [(messageIndex, offset)], compared lexicographically. *)
Definition hitBefore (a b : Reference.Hit) : Prop :=
  Reference.hitMessageIndex a < Reference.hitMessageIndex b
  \/ (Reference.hitMessageIndex a = Reference.hitMessageIndex b
      /\ Reference.hitOffset a < Reference.hitOffset b).

(** The same order on the matches of a traced scan. *)
Definition occursBefore (a b : SearchMatch * nat) : Prop :=
  exists i j,
    messageIndex (fst a) = Some i /\ messageIndex (fst b) = Some j
    /\ (i < j \/ (i = j /\ snd a < snd b)).

(** The pair [(m, offset)] of a traced scan is an occurrence in history [h]
    under configuration [cfg]: [m] names a message of [h] that is not a
    system message, by position and by id, and the query starts at [offset]
    in the text scanned for it. *)
Definition isOccurrence (toLowerCase : string -> string)
           (cfg : SearchConfiguration) (h : list ChatHistoryItemWithMessageId)
           (m : SearchMatch) (offset : nat) : Prop :=
  exists i item,
    messageIndex m = Some i /\ nth_error h i = Some item
    /\ messageId m = Some (id (message item))
    /\ String.eqb (role (message item)) "system" = false
    /\ prefix (queryOf toLowerCase cfg)
              (drop offset (textToCheckOf toLowerCase cfg (content (message item))))
       = true.

Definition earlierMatchOfHit (ordinal : nat) (hit : Reference.Hit) : SearchMatch :=
  mkSearchMatch ordinal (Some (Reference.hitMessageIndex hit)) None None.

(** [h'] is a version of [h] in which the flattened text of every message is
    lower-cased: message by message the role is kept and the text of the
    second is the lower-cased text of the first. *)
Definition lowerCasedVersion (toLowerCase : string -> string)
           (h h' : list ChatHistoryItemWithMessageId) : Prop :=
  Forall2 (fun item item' =>
             role (message item') = role (message item)
             /\ textContentOf (content (message item'))
                = toLowerCase (textContentOf (content (message item))))
          h h'.

Definition hitKey (x : Reference.Hit) : nat * nat :=
  (Reference.hitMessageIndex x, Reference.hitOffset x).

(** The invariant of a match list: the ordinal of a match is its position. *)
Definition ordinalsArePositions (ms : list SearchMatch) : Prop :=
  forall i m, nth_error ms i = Some m -> index m = i.

(** [r] is the first element of [l] that satisfies [P]. *)
Definition firstSuch (P : SearchMatch -> Prop) (l : list SearchMatch)
           (r : SearchMatch) : Prop :=
  exists before after,
    l = before ++ r :: after /\ P r /\ forall x, In x before -> ~ P x.


(** The widget is closed or externally disabled. *)
Definition gated (st : WidgetState) : Prop :=
  disabled st = true \/ open st = false.

(** Nothing to show and no poll running. *)
Definition cleared (st : WidgetState) : Prop :=
  matches st = [] /\ visibleHighlights st = [] /\ interval st = None.

(** Case analysis on what [scrollToMatch] does, shared by the proofs about
    state fields. *)
(** A current match is only ever set by a scan, and a scan remembers its
    term. *)
Definition currentFromScan (st : WidgetState) : Prop :=
  currentMatch st <> None -> prevSearchTerm st <> "".


(** The gating in the words of the specification, for the one effect of the
    later revision that looks at [open] and [disabled]: once it has run in a
    closed or disabled widget, both lists are empty. *)
Definition emptiedWhenGated (toLowerCase : string -> string)
           (st : WidgetState) : Prop :=
  gated st ->
  matches (Later.searchEffect toLowerCase st) = []
  /\ visibleHighlights (Later.searchEffect toLowerCase st) = [].

Ltac split_scroll :=
  unfold scrollToMatch;
  repeat match goal with
         | |- context [match messageIndex ?m with _ => _ end] =>
             destruct (messageIndex m)
         | |- context [if virtuosoMounted ?s then _ else _] =>
             destruct (virtuosoMounted s)
         end.


(** ** The scenarios of the specification *)

Module Scenario.

Definition user (i text : string) : ChatHistoryItemWithMessageId :=
  mkItem (mkChatMessage i "user" (ContentString text)).
Definition assistant (i text : string) : ChatHistoryItemWithMessageId :=
  mkItem (mkChatMessage i "assistant" (ContentString text)).

Definition history1 : list ChatHistoryItemWithMessageId :=
  [user "m0" "find me"; assistant "m1" "ok, FIND ME again find"].

Definition m (ordinal messageIdx : nat) (i : string) : SearchMatch :=
  mkSearchMatch ordinal (Some messageIdx) (Some i) None.

Definition noHighlights (q : HighlightQuery) : list SearchMatch := [].

Definition opened (term prev : string) (cs : bool)
           (h : list ChatHistoryItemWithMessageId)
           (ms : list SearchMatch) (cur : option SearchMatch) : WidgetState :=
  mkState h false true 0 true (mkConfig term cs false) ms cur [] prev None [] [].

Definition matches1 : list SearchMatch :=
  [m 0 0 "m0"; m 1 1 "m1"; m 2 1 "m1"].

(** Scenario 3: the search for "find" is done and the second match is the
    current one. *)
Definition browsing : WidgetState :=
  opened "find" "find" false history1 matches1 (Some (m 1 1 "m1")).

(** Scenario 5: a message has been inserted before the second one. *)
Definition history2 : list ChatHistoryItemWithMessageId :=
  [user "m0" "find me"; user "m2" "something new";
   assistant "m1" "ok, FIND ME again find"].


(** [history1] with its texts lower-cased. *)
Definition lowered1 : list ChatHistoryItemWithMessageId :=
  [user "m0" "find me"; assistant "m1" "ok, find me again find"].

(** A container in which one occurrence is rendered. *)
Definition oneHighlight (q : HighlightQuery) : list SearchMatch :=
  [mkSearchMatch 0 None None (Some (mkRectangle 0 0 32 16))].

(** The widget is opened, "find" is searched, the deferred highlight
    update runs, and the widget is dismissed. *)
Definition untilDismissed : list Event :=
  [OpenShortcut; TermEmitted "find"; SearchEffectRuns; TimeoutFires; Dismiss].

Definition dismissed : WidgetState :=
  Eval vm_compute in
    match Later.run asciiToLowerCase oneHighlight untilDismissed
                    (initialState history1 false true) with
    | Some st => st
    | None => initialState [] false false
    end.

End Scenario.

(** ** What the widget shows *)

(** The counter of the widget,
    [matches.length === 0 ? "No results"
       : `${(currentMatch?.index ?? 0) + 1} of ${matches.length}`],
    with the two numbers of the template kept as numbers. *)
Inductive CounterLabel :=
| NoResults
| Position (current total : nat).

Definition counterLabel (st : WidgetState) : CounterLabel :=
  if List.length (matches st) =? 0 then NoResults
  else Position (match currentMatch st with
                 | Some cm => index cm
                 | None => 0
                 end + 1)
                (List.length (matches st)).

(** ** Further notions used in the statements *)

(** A match list to navigate in: ordinals are positions, and a list that is
    not empty comes with a current match that is one of its elements. *)
Definition navigable (st : WidgetState) : Prop :=
  ordinalsArePositions (matches st)
  /\ (matches st <> [] ->
      exists cm, currentMatch st = Some cm /\ In cm (matches st)).

(** Two occurrences in the same message do not overlap: the second starts
    at or after the end of the first. *)
Definition hitApart (width : nat) (a b : Reference.Hit) : Prop :=
  Reference.hitMessageIndex a = Reference.hitMessageIndex b ->
  Reference.hitOffset a + width <= Reference.hitOffset b.

Definition occursApart (width : nat) (a b : SearchMatch * nat) : Prop :=
  messageIndex (fst a) = messageIndex (fst b) -> snd a + width <= snd b.

(** The number of code units the scan looks at: the texts of the messages
    that are not system messages. *)
Definition scannedLength (toLowerCase : string -> string)
           (cfg : SearchConfiguration)
           (h : list ChatHistoryItemWithMessageId) : nat :=
  list_sum (map (fun item =>
                   if String.eqb (role (message item)) "system" then 0
                   else String.length
                          (textToCheckOf toLowerCase cfg (content (message item))))
                h).

(** The message with its content replaced by its flattened text. *)
Definition flattened (item : ChatHistoryItemWithMessageId) : ChatHistoryItemWithMessageId :=
  mkItem (mkChatMessage (id (message item)) (role (message item))
                        (ContentString (textContentOf (content (message item))))).

Definition setUseRegex (b : bool) (st : WidgetState) : WidgetState :=
  setConfig (mkConfig (searchTerm (config st)) (caseSensitive (config st)) b) st.

(** The last query of the container in a log of collaborator calls. *)
Fixpoint lastQuery (l : list Effect) : option HighlightQuery :=
  match l with
  | [] => None
  | e :: rest =>
      match lastQuery rest with
      | Some q => Some q
      | None => match e with
                | SearchWithinContainer q => Some q
                | ScrollToIndex _ => None
                end
      end
  end.

(** ** Following the output of a streaming chat ([useChatScroll]) *)

Module ChatScroll.

(** What [handleFollowOutput] returns: ["auto"] or [false]. *)
Inductive FollowOutput := FollowAuto | FollowFalse.

(** [shouldAutoScroll = useRef(true)] *)
Definition initialShouldAutoScroll : bool := true.

(** [handleAtBottomStateChange]: [shouldAutoScroll.current = isAtBottom]. *)
Definition handleAtBottomStateChange (isAtBottom : bool)
           (shouldAutoScroll : bool) : bool :=
  isAtBottom.

(** [handleFollowOutput(isAtBottom)], with the [isStreaming] prop and the
    ref as it is at the call. *)
Definition handleFollowOutput (isStreaming : bool) (isAtBottom : bool)
           (shouldAutoScroll : bool) : FollowOutput :=
  let should := isStreaming && shouldAutoScroll in
  if should then FollowAuto else FollowFalse.

(** The ref after the list has reported its at-bottom state a number of
    times. *)
Definition afterReports (reports : list bool) : bool :=
  fold_left (fun shouldAutoScroll isAtBottom =>
               handleAtBottomStateChange isAtBottom shouldAutoScroll)
            reports initialShouldAutoScroll.

(** The effect on mount: with a history that is not empty and the handle
    mounted, a timer is set whose callback scrolls to the index
    [historyLength - 1]; [None] when no timer is set. *)
Definition initialScrollTimer (historyLength : nat) (mounted : bool) : option nat :=
  if (0 <? historyLength) && mounted then Some (historyLength - 1) else None.

(** [scrollToIndex({ index, align: "end" })] *)
Inductive Scroll := ScrollToIndexEnd (index : nat).

(** The callback of the timer, [virtuosoRef.current?.scrollToIndex(...)]:
    the scroll instructions it issues. *)
Definition timerFires (target : nat) (mountedNow : bool) : list Scroll :=
  if mountedNow then [ScrollToIndexEnd target] else [].

End ChatScroll.

(** ** Compacting a conversation ([useCompactConversation]) *)

Module Compaction.

Inductive RequestStatus := fulfilled | rejected.

(** The calls the two hooks make. *)
Inductive Action :=
| SetCompactionLoading (index : nat) (loading : bool)
| SaveCurrentSession (openNewSession generateTitle : bool)
| RequestCompact (index : nat) (sessionId : string)
| LoadSession (sessionId : string) (saveCurrentSession : bool)
| CalculateContextPercentage
| ConsoleError
| DeleteCompaction (index : nat).

(** What the collaborators do: whether a call throws (or its promise
    rejects), and the request status of the reloaded session. *)
Record World := mkWorld {
  throws : Action -> bool;
  loadStatus : RequestStatus
}.

(** A computation logs its calls and returns a value, or [None] when a call
    has thrown. *)
Definition M (A : Type) : Type := World -> list Action -> list Action * option A.

Definition ret {A : Type} (a : A) : M A := fun _ t => (t, Some a).

Definition bind {A B : Type} (m : M A) (k : A -> M B) : M B :=
  fun w t =>
    match m w t with
    | (t1, Some a) => k a w t1
    | (t1, None) => (t1, None)
    end.

Definition call (a : Action) : M unit :=
  fun w t => (t ++ [a], if throws w a then None else Some tt).

(** The awaited dispatch of [loadSession]: the call, and its result. *)
Definition dispatchLoadSession (sessionId : string) (saveCurrent : bool) : M RequestStatus :=
  fun w t =>
    (t ++ [LoadSession sessionId saveCurrent],
     if throws w (LoadSession sessionId saveCurrent) then None
     else Some (loadStatus w)).

(** [try { body } catch (error) { handler } finally { finalizer }] *)
Definition tryCatchFinally (body handler finalizer : M unit) : M unit :=
  fun w t =>
    match body w t with
    | (t1, Some _) => finalizer w t1
    | (t1, None) =>
        match handler w t1 with
        | (t2, Some _) => finalizer w t2
        | (t2, None) => (fst (finalizer w t2), None)
        end
    end.

(** The function [useCompactConversation] returns. *)
Definition compactConversation (currentSessionId : string) (index : nat) : M unit :=
  if String.eqb currentSessionId "" then ret tt
  else
    tryCatchFinally
      (bind (call (SetCompactionLoading index true)) (fun _ =>
       bind (call (SaveCurrentSession false false)) (fun _ =>
       bind (call (RequestCompact index currentSessionId)) (fun _ =>
       bind (dispatchLoadSession currentSessionId false) (fun loadSessionResult =>
       match loadSessionResult with
       | fulfilled => call CalculateContextPercentage
       | rejected => ret tt
       end)))))
      (call ConsoleError)
      (call (SetCompactionLoading index false)).

(** The function [useDeleteCompaction] returns. *)
Definition deleteCompaction (index : nat) : M unit :=
  bind (call (DeleteCompaction index)) (fun _ =>
  call (SaveCurrentSession false false)).

(** The calls made, from an empty log. *)
Definition trace {A : Type} (m : M A) (w : World) : list Action :=
  fst (m w []).

End Compaction.

(** ** States and worlds for the further statements *)

Module Cases.

(** The widget after open, the term "find", the search effect and the
    deferred highlight update. *)
Definition searched : WidgetState :=
  Eval vm_compute in
    match Later.run asciiToLowerCase Scenario.oneHighlight
                    [OpenShortcut; TermEmitted "find"; SearchEffectRuns;
                     TimeoutFires; Next]
                    (initialState Scenario.history1 false true) with
    | Some st => st
    | None => initialState [] false false
    end.

(** The later widget with the third match, the second occurrence in its
    message, as the current one. *)
Definition onSecondOccurrence : WidgetState :=
  Scenario.opened "find" "find" false Scenario.history1 Scenario.matches1
                  (Some (Scenario.m 2 1 "m1")).

(** The earlier widget after a search for "find" and two steps forward, when
    the term becomes the single letter "o". *)
Definition earlierMatches : list SearchMatch :=
  [mkSearchMatch 0 (Some 0) None None; mkSearchMatch 1 (Some 1) None None;
   mkSearchMatch 2 (Some 1) None None].

Definition shortened : WidgetState :=
  Scenario.opened "o" "" false Scenario.history1 earlierMatches
                  (Some (mkSearchMatch 2 (Some 1) None None)).

(** A message whose text is spread over parts around an image. *)
Definition inParts : list ChatHistoryItemWithMessageId :=
  [mkItem (mkChatMessage "p0" "user"
             (ContentParts [TextMessagePart "fi"; ImageMessagePart "data:";
                            TextMessagePart "nd it"]))].

(** A world in which the request to compact fails. *)
Definition requestFails : Compaction.World :=
  Compaction.mkWorld
    (fun a => match a with
              | Compaction.RequestCompact _ _ => true
              | _ => false
              end)
    Compaction.fulfilled.

End Cases.

(** ** Navigation in the running later hook *)

Module Running.

(** A press of Enter in the input (or of the arrow down) with what follows
    from it in the later hook: [nextMatch] sets a new current match,
    [refreshSearch] lists [currentMatch] among its dependencies and the
    search effect lists [refreshSearch], so the search effect runs again. *)
Definition pressNext : list Event := [Next; SearchEffectRuns].

Definition pressPrevious : list Event := [Previous; SearchEffectRuns].

Fixpoint presses (n : nat) : list Event :=
  match n with
  | 0 => []
  | S n' => pressNext ++ presses n'
  end.

(** The widget of scenario 1 once the search for "find" has settled: it is
    opened, the term is emitted, the search effect runs, and runs again for
    the current match it has set. *)
Definition found : WidgetState :=
  Eval vm_compute in
    match Later.run asciiToLowerCase Scenario.oneHighlight
                    [OpenShortcut; TermEmitted "find"; SearchEffectRuns;
                     SearchEffectRuns]
                    (initialState Scenario.history1 false true) with
    | Some st => st
    | None => initialState [] false false
    end.

(** A state of that search, with [c] as the current match. *)
Definition searching (c : SearchMatch) (s : WidgetState) : Prop :=
  history s = Scenario.history1
  /\ disabled s = false
  /\ open s = true
  /\ config s = mkConfig "find" false false
  /\ prevSearchTerm s = "find"
  /\ matches s = Scenario.matches1
  /\ currentMatch s = Some c.

End Running.

(** ** The scenarios, run *)

Example scenario1 :
  Later.indexMatches asciiToLowerCase (mkConfig "find" false false) Scenario.history1
  = [Scenario.m 0 0 "m0"; Scenario.m 1 1 "m1"; Scenario.m 2 1 "m1"].
Proof. reflexivity. Qed.

Example scenario2 :
  Later.indexMatches asciiToLowerCase (mkConfig "find" true false) Scenario.history1
  = [Scenario.m 0 0 "m0"; Scenario.m 1 1 "m1"].
Proof. reflexivity. Qed.

Example scenario1_traced :
  map snd (Later.tracedMatches asciiToLowerCase (mkConfig "find" false false)
                               Scenario.history1)
  = [0; 4; 18].
Proof. reflexivity. Qed.

Example overlapping_occurrences :
  List.length (Later.indexMatches asciiToLowerCase (mkConfig "aa" true false)
                                  [Scenario.user "m0" "aaaaa"]) = 2.
Proof. reflexivity. Qed.

(** ** Facts about strings and [indexOf] *)

Lemma drop_empty (n : nat) : drop n "" = "".
Proof. destruct n; reflexivity. Qed.

Lemma drop_drop (a b : nat) (s : string) : drop a (drop b s) = drop (b + a) s.
Proof.
  revert s; induction b as [|b IH]; intros s; simpl.
  - reflexivity.
  - destruct s as [|c s']; [apply drop_empty | apply IH].
Qed.

Lemma length_drop (n : nat) (s : string) :
  String.length (drop n s) = String.length s - n.
Proof.
  revert s; induction n as [|n IH]; intros [|c s']; simpl; auto.
Qed.

Lemma prefix_empty_text (q : string) : q <> "" -> prefix q "" = false.
Proof. destruct q; [congruence | reflexivity]. Qed.

Lemma prefix_length (q s : string) :
  prefix q s = true -> String.length q <= String.length s.
Proof.
  revert s; induction q as [|c q IH]; intros s H; [simpl; lia|].
  destruct s as [|d s']; simpl in H; [discriminate|].
  destruct (ascii_dec c d); [|discriminate].
  simpl. apply IH in H. lia.
Qed.

Lemma length_nonempty (q : string) : q <> "" -> 1 <= String.length q.
Proof. destruct q; [congruence | simpl; lia]. Qed.

Lemma indexOfAux_bounds (s q : string) (p k : nat) :
  indexOfAux s q p = Some k ->
  p <= k /\ k + String.length q <= p + String.length s.
Proof.
  revert p; induction s as [|c s' IH]; intros p H; cbn [indexOfAux] in H.
  - destruct (prefix q "") eqn:E; [|discriminate].
    inversion H; subst. apply prefix_length in E. simpl in *. lia.
  - destruct (prefix q (String c s')) eqn:E.
    + inversion H; subst. apply prefix_length in E. lia.
    + apply IH in H. cbn [String.length]. lia.
Qed.

(** What [indexOf] returns is an occurrence, and the first one from the
    start position on. *)
Lemma indexOfAux_occurs (s q : string) (p k : nat) :
  indexOfAux s q p = Some k -> prefix q (drop (k - p) s) = true.
Proof.
  revert p; induction s as [|c s' IH]; intros p H; cbn [indexOfAux] in H.
  - destruct (prefix q "") eqn:E; [|discriminate].
    inversion H; subst. now rewrite drop_empty.
  - destruct (prefix q (String c s')) eqn:E.
    + inversion H; subst. now rewrite Nat.sub_diag.
    + pose proof (indexOfAux_bounds _ _ _ _ H) as [Hle _].
      apply IH in H.
      replace (k - p) with (S (k - S p)) by lia. exact H.
Qed.

Lemma indexOfAux_first (s q : string) (p k j : nat) :
  indexOfAux s q p = Some k -> p <= j -> j < k ->
  prefix q (drop (j - p) s) = false.
Proof.
  revert p; induction s as [|c s' IH]; intros p H Hpj Hjk; cbn [indexOfAux] in H.
  - destruct (prefix q "") eqn:E; [|discriminate].
    inversion H; subst. lia.
  - destruct (prefix q (String c s')) eqn:E.
    + inversion H; subst. lia.
    + destruct (Nat.eq_dec j p) as [->|Hne].
      * now rewrite Nat.sub_diag.
      * replace (j - p) with (S (j - S p)) by lia.
        cbn [drop]. apply (IH (S p)); [exact H | lia | lia].
Qed.

Lemma indexOfAux_none (s q : string) (p j : nat) :
  indexOfAux s q p = None -> prefix q (drop j s) = false.
Proof.
  revert p j; induction s as [|c s' IH]; intros p j H; cbn [indexOfAux] in H.
  - rewrite drop_empty. destruct (prefix q ""); [discriminate | reflexivity].
  - destruct (prefix q (String c s')) eqn:E; [discriminate|].
    destruct j as [|j]; [exact E | cbn [drop]; eapply IH; eauto].
Qed.

Lemma indexOf_in_range (s q : string) (start : nat) :
  start <= String.length s ->
  indexOf s q start = indexOfAux (drop start s) q start.
Proof.
  intros H. unfold indexOf. now rewrite Nat.min_l by exact H.
Qed.

(** ** The loop of the hook against the brute-force scan *)

Lemma occurrences_skip (q : string) (n p : nat) (s : string) :
  Reference.occurrences q n p s = Reference.occurrences q 0 (p + n) (drop n s).
Proof.
  revert n p; induction s as [|c s' IH]; intros n p.
  - now rewrite drop_empty.
  - destruct n as [|n]; simpl.
    + now rewrite Nat.add_0_r.
    + rewrite IH. f_equal. lia.
Qed.

Lemma occurrences_unfold (q : string) (p : nat) (s : string) :
  q <> "" ->
  Reference.occurrences q 0 p s =
  match indexOfAux s q p with
  | None => []
  | Some k =>
      k :: Reference.occurrences q 0 (k + String.length q)
                                 (drop (k - p + String.length q) s)
  end.
Proof.
  intros Hq. pose proof (length_nonempty _ Hq) as Hlen.
  revert p; induction s as [|c s' IH]; intros p.
  - cbn [Reference.occurrences indexOfAux].
    now rewrite prefix_empty_text.
  - cbn [Reference.occurrences indexOfAux].
    destruct (prefix q (String c s')) eqn:E.
    + rewrite occurrences_skip. f_equal.
      rewrite Nat.sub_diag.
      replace (0 + String.length q) with (S (String.length q - 1)) by lia.
      simpl. f_equal. lia.
    + rewrite IH. destruct (indexOfAux s' q (S p)) as [k|] eqn:Ek; [|reflexivity].
      apply indexOfAux_bounds in Ek as [Hk _].
      replace (k - p + String.length q) with (S (k - S p + String.length q)) by lia.
      reflexivity.
Qed.

(** With fuel beyond the distance to the end of the text the loop has left
    through its exit and pushed one element per brute-force occurrence. *)
Lemma whileIndexOf_occurrences {A : Type} (push : list A -> nat -> A)
      (fuel : nat) (text q : string) (start : nat) (results : list A) :
  q <> "" -> start <= String.length text ->
  String.length text - start < fuel ->
  whileIndexOf push fuel text q start results =
  pushAll push (Reference.occurrences q 0 start (drop start text)) results.
Proof.
  intros Hq. pose proof (length_nonempty _ Hq) as Hlen.
  revert start results; induction fuel as [|fuel IH]; intros start results Hs Hf.
  - lia.
  - cbn [whileIndexOf]. rewrite indexOf_in_range by exact Hs.
    rewrite (occurrences_unfold q start (drop start text) Hq).
    destruct (indexOfAux (drop start text) q start) as [k|] eqn:Ek.
    + pose proof (indexOfAux_bounds _ _ _ _ Ek) as [Hk1 Hk2].
      rewrite length_drop in Hk2.
      rewrite drop_drop.
      replace (start + (k - start + String.length q))
        with (k + String.length q) by lia.
      cbn [pushAll fold_left]. apply IH; lia.
    + reflexivity.
Qed.

(** More fuel than that changes nothing: the bound of [scanItem] is not
    what ends the loop. *)
Lemma whileIndexOf_fuel {A : Type} (push : list A -> nat -> A)
      (fuel extra : nat) (text q : string) (start : nat) (results : list A) :
  q <> "" -> start <= String.length text ->
  String.length text - start < fuel ->
  whileIndexOf push (fuel + extra) text q start results =
  whileIndexOf push fuel text q start results.
Proof.
  intros Hq Hs Hf.
  rewrite !whileIndexOf_occurrences by (assumption || lia). reflexivity.
Qed.

(** ** The whole scan as a list of hits *)

Lemma concat_empty_separator (l : list string) :
  String.concat "" l = fold_right String.append "" l.
Proof.
  induction l as [|x l IH]; [reflexivity|].
  cbn [String.concat fold_right]. destruct l as [|y l].
  - cbn [fold_right]. clear IH. induction x as [|c x IHx]; simpl; congruence.
  - rewrite IH. reflexivity.
Qed.

Lemma textContentOf_flatten (c : MessageContent) :
  textContentOf c = Reference.flatten c.
Proof.
  destruct c as [s|parts]; [reflexivity|].
  unfold textContentOf, join, Reference.flatten.
  rewrite concat_empty_separator.
  induction parts as [|[t|u] parts IH]; cbn [map fold_right Reference.textsOf].
  - reflexivity.
  - now rewrite IH.
  - exact IH.
Qed.

Section ScanFacts.

Variable toLowerCase : string -> string.
Variable cfg : SearchConfiguration.

Lemma queryOf_foldCase :
  queryOf toLowerCase cfg = Reference.foldCase toLowerCase cfg (searchTerm cfg).
Proof. reflexivity. Qed.

Lemma textToCheckOf_foldCase (c : MessageContent) :
  textToCheckOf toLowerCase cfg c
  = Reference.foldCase toLowerCase cfg (Reference.flatten c).
Proof.
  unfold textToCheckOf, Reference.foldCase. now rewrite textContentOf_flatten.
Qed.

Context {A : Type}
        (push : ChatHistoryItemWithMessageId -> nat -> list A -> nat -> A).

Lemma pushAll_pushHits (item : ChatHistoryItemWithMessageId) (hi : nat)
      (offsets : list nat) (results : list A) :
  pushAll (push item hi) offsets results
  = pushHits push (map (Reference.mkHit hi item) offsets) results.
Proof.
  revert results; induction offsets as [|o os IH]; intros results;
    [reflexivity | apply IH].
Qed.

Lemma scanItem_hits (item : ChatHistoryItemWithMessageId) (hi : nat)
      (results : list A) :
  queryOf toLowerCase cfg <> "" ->
  scanItem toLowerCase push cfg item hi results
  = pushHits push (Reference.hitsOfItem toLowerCase cfg hi item) results.
Proof.
  intros Hq. unfold scanItem, Reference.hitsOfItem.
  destruct (String.eqb (role (message item)) "system"); [reflexivity|].
  cbv zeta. rewrite whileIndexOf_occurrences by (auto; lia).
  rewrite pushAll_pushHits, textToCheckOf_foldCase. reflexivity.
Qed.

Lemma forEachFrom_hits (h : list ChatHistoryItemWithMessageId) (hi : nat)
      (results : list A) :
  queryOf toLowerCase cfg <> "" ->
  forEachFrom toLowerCase push cfg hi h results
  = pushHits push (Reference.hitsFrom toLowerCase cfg hi h) results.
Proof.
  intros Hq. revert hi results; induction h as [|item rest IH]; intros hi results.
  - reflexivity.
  - cbn [forEachFrom Reference.hitsFrom]. rewrite IH, scanItem_hits by exact Hq.
    unfold pushHits. now rewrite fold_left_app.
Qed.

Lemma scanHistory_hits (h : list ChatHistoryItemWithMessageId) :
  scanHistory toLowerCase push cfg h
  = if String.eqb (queryOf toLowerCase cfg) "" then None
    else Some (pushHits push (Reference.hits toLowerCase cfg h) []).
Proof.
  unfold scanHistory, Reference.hits. rewrite <- queryOf_foldCase.
  destruct (String.eqb (queryOf toLowerCase cfg) "") eqn:E; [reflexivity|].
  apply String.eqb_neq in E. now rewrite forEachFrom_hits.
Qed.

(** A push that only looks at the number of results so far numbers the
    hits. *)
Lemma pushHits_enum (g : nat -> Reference.Hit -> A) (hs : list Reference.Hit)
      (results : list A) :
  (forall acc hit,
      push (Reference.hitItem hit) (Reference.hitMessageIndex hit) acc
           (Reference.hitOffset hit) = g (List.length acc) hit) ->
  pushHits push hs results
  = results ++ map (fun p => g (fst p) (snd p))
                   (Reference.enumFrom (List.length results) hs).
Proof.
  intros Hg. revert results; induction hs as [|x xs IH]; intros results.
  - cbn. now rewrite app_nil_r.
  - change (pushHits push (x :: xs) results)
      with (pushHits push xs
              (results ++ [push (Reference.hitItem x) (Reference.hitMessageIndex x)
                                results (Reference.hitOffset x)])).
    rewrite IH, Hg.
    rewrite length_app, <- app_assoc. cbn [List.length Nat.add app].
    unfold Reference.enumFrom. cbn [List.length seq combine map fst snd].
    now rewrite Nat.add_1_r.
Qed.

End ScanFacts.

(** ** The match list of the later revision *)

Lemma later_refreshSearch_matches (toLowerCase : string -> string)
      (st : WidgetState) :
  matches (Later.refreshSearch toLowerCase st)
  = Later.indexMatches toLowerCase (config st) (history st).
Proof.
  unfold Later.refreshSearch, Later.indexMatches.
  destruct (scanHistory toLowerCase Later.pushMatch (config st) (history st))
    as [results|]; [|reflexivity].
  destruct (negb (String.eqb (searchTerm (config st)) (prevSearchTerm st))).
  - destruct results; split_scroll; reflexivity.
  - destruct (currentMatch st) as [cm|].
    + destruct (find (Later.relocates cm) results); reflexivity.
    + destruct results; reflexivity.
Qed.

Lemma later_indexMatches_hits (toLowerCase : string -> string)
      (cfg : SearchConfiguration) (h : list ChatHistoryItemWithMessageId) :
  Later.indexMatches toLowerCase cfg h
  = map (fun p => Reference.matchOfHit (fst p) (snd p))
        (Reference.enumFrom 0 (Reference.hits toLowerCase cfg h)).
Proof.
  unfold Later.indexMatches. rewrite scanHistory_hits.
  destruct (String.eqb (queryOf toLowerCase cfg) "") eqn:E.
  - unfold Reference.hits. rewrite <- queryOf_foldCase, E. reflexivity.
  - rewrite (pushHits_enum Later.pushMatch Reference.matchOfHit); reflexivity.
Qed.

(** C1. For every history and every search configuration, the match list that
    [refreshSearch] hands to [setMatches] is the reference scan of the
    specification: no match from a message of role "system"; the content
    flattened (a string as it is, of an array only the text parts, in order);
    text and query lower-cased when the search is not case sensitive; in each
    message the occurrences found by visiting every position from left to
    right and skipping each matched span; messages in history order; the
    ordinal a running counter over the whole scan (and no match at all for an
    empty query). *)
Theorem refreshSearch_is_reference_scan (toLowerCase : string -> string)
        (st : WidgetState) :
  matches (Later.refreshSearch toLowerCase st)
  = Reference.scan toLowerCase (config st) (history st).
Proof.
  rewrite later_refreshSearch_matches, later_indexMatches_hits. reflexivity.
Qed.

(** ** Order of the hits *)

Lemma StronglySorted_app {A : Type} (R : A -> A -> Prop) (l1 l2 : list A) :
  StronglySorted R l1 -> StronglySorted R l2 ->
  (forall x y, In x l1 -> In y l2 -> R x y) ->
  StronglySorted R (l1 ++ l2).
Proof.
  intros H1 H2 H12. induction H1 as [|a l Hl IH Ha]; [exact H2|].
  cbn [app]. constructor.
  - apply IH. intros x y Hx Hy. apply H12; [now right | exact Hy].
  - apply Forall_app. split; [exact Ha|].
    apply Forall_forall. intros y Hy. apply H12; [now left | exact Hy].
Qed.

Lemma StronglySorted_map {A B : Type} (R : A -> A -> Prop) (Q : B -> B -> Prop)
      (f : A -> B) (l : list A) :
  (forall x y, In x l -> In y l -> R x y -> Q (f x) (f y)) ->
  StronglySorted R l -> StronglySorted Q (map f l).
Proof.
  intros Hf H. induction H as [|a l Hl IH Ha]; [constructor|].
  cbn [map]. constructor.
  - apply IH. intros x y Hx Hy. apply Hf; now right.
  - apply Forall_forall. intros y Hy. apply in_map_iff in Hy as [x [<- Hx]].
    apply Hf; [now left | now right |].
    rewrite Forall_forall in Ha. now apply Ha.
Qed.

Lemma occurrences_from (q : string) (skip pos : nat) (s : string) (o : nat) :
  In o (Reference.occurrences q skip pos s) ->
  pos + skip <= o /\ prefix q (drop (o - pos) s) = true.
Proof.
  revert skip pos; induction s as [|c s' IH]; intros skip pos H; [destruct H|].
  cbn [Reference.occurrences] in H. destruct skip as [|skip].
  - destruct (prefix q (String c s')) eqn:E.
    + destruct H as [<- | H].
      * rewrite Nat.sub_diag. split; [lia | exact E].
      * apply IH in H as [Hle Hp]. split; [lia|].
        replace (o - pos) with (S (o - S pos)) by lia. exact Hp.
    + apply IH in H as [Hle Hp]. split; [lia|].
      replace (o - pos) with (S (o - S pos)) by lia. exact Hp.
  - apply IH in H as [Hle Hp]. split; [lia|].
    replace (o - pos) with (S (o - S pos)) by lia. exact Hp.
Qed.

Lemma occurrences_increasing (q : string) (skip pos : nat) (s : string) :
  StronglySorted lt (Reference.occurrences q skip pos s).
Proof.
  revert skip pos; induction s as [|c s' IH]; intros skip pos; [constructor|].
  cbn [Reference.occurrences]. destruct skip as [|skip]; [|apply IH].
  destruct (prefix q (String c s')); [|apply IH].
  constructor; [apply IH|].
  apply Forall_forall. intros o Ho. apply occurrences_from in Ho. lia.
Qed.

Section HitFacts.

Variable toLowerCase : string -> string.
Variable cfg : SearchConfiguration.

Lemma hitsOfItem_inv (hi : nat) (item : ChatHistoryItemWithMessageId)
      (x : Reference.Hit) :
  In x (Reference.hitsOfItem toLowerCase cfg hi item) ->
  Reference.hitMessageIndex x = hi /\ Reference.hitItem x = item
  /\ String.eqb (role (message item)) "system" = false
  /\ prefix (queryOf toLowerCase cfg)
            (drop (Reference.hitOffset x)
                  (textToCheckOf toLowerCase cfg (content (message item))))
     = true.
Proof.
  unfold Reference.hitsOfItem.
  destruct (String.eqb (role (message item)) "system"); [intros []|].
  intros H. apply in_map_iff in H as [o [<- Ho]].
  apply occurrences_from in Ho as [_ Ho]. rewrite Nat.sub_0_r in Ho.
  rewrite textToCheckOf_foldCase. cbn. auto.
Qed.

Lemma hitsFrom_inv (h : list ChatHistoryItemWithMessageId) (hi : nat)
      (x : Reference.Hit) :
  In x (Reference.hitsFrom toLowerCase cfg hi h) ->
  hi <= Reference.hitMessageIndex x
  /\ nth_error h (Reference.hitMessageIndex x - hi) = Some (Reference.hitItem x)
  /\ String.eqb (role (message (Reference.hitItem x))) "system" = false
  /\ prefix (queryOf toLowerCase cfg)
            (drop (Reference.hitOffset x)
                  (textToCheckOf toLowerCase cfg
                                 (content (message (Reference.hitItem x)))))
     = true.
Proof.
  revert hi; induction h as [|item rest IH]; intros hi H; [destruct H|].
  cbn [Reference.hitsFrom] in H. apply in_app_or in H as [H|H].
  - apply hitsOfItem_inv in H as (-> & -> & Hr & Hp).
    rewrite Nat.sub_diag. cbn. auto.
  - apply IH in H as (Hle & Hn & Hr & Hp).
    replace (Reference.hitMessageIndex x - hi)
      with (S (Reference.hitMessageIndex x - S hi)) by lia.
    cbn [nth_error]. repeat split; auto; lia.
Qed.

Lemma hitsFrom_sorted (h : list ChatHistoryItemWithMessageId) (hi : nat) :
  StronglySorted hitBefore (Reference.hitsFrom toLowerCase cfg hi h).
Proof.
  revert hi; induction h as [|item rest IH]; intros hi; [constructor|].
  cbn [Reference.hitsFrom]. apply StronglySorted_app.
  - unfold Reference.hitsOfItem.
    destruct (String.eqb (role (message item)) "system"); [constructor|].
    eapply StronglySorted_map; [|apply occurrences_increasing].
    intros x y _ _ Hxy. right. cbn. auto.
  - apply IH.
  - intros x y Hx Hy. apply hitsOfItem_inv in Hx as (Hx & _).
    apply hitsFrom_inv in Hy as (Hy & _). left. lia.
Qed.

Lemma hits_sorted (h : list ChatHistoryItemWithMessageId) :
  StronglySorted hitBefore (Reference.hits toLowerCase cfg h).
Proof.
  unfold Reference.hits.
  destruct (String.eqb _ ""); [constructor | apply hitsFrom_sorted].
Qed.

Lemma hits_inv (h : list ChatHistoryItemWithMessageId) (x : Reference.Hit) :
  In x (Reference.hits toLowerCase cfg h) ->
  nth_error h (Reference.hitMessageIndex x) = Some (Reference.hitItem x)
  /\ String.eqb (role (message (Reference.hitItem x))) "system" = false
  /\ prefix (queryOf toLowerCase cfg)
            (drop (Reference.hitOffset x)
                  (textToCheckOf toLowerCase cfg
                                 (content (message (Reference.hitItem x)))))
     = true.
Proof.
  unfold Reference.hits. destruct (String.eqb _ ""); [intros []|].
  intros H. apply hitsFrom_inv in H as (_ & Hn & Hr & Hp).
  rewrite Nat.sub_0_r in Hn. auto.
Qed.

End HitFacts.

(** ** Numbered lists *)

Lemma enumFrom_nth_error {A : Type} (l : list A) (base i n : nat) (x : A) :
  nth_error (Reference.enumFrom base l) i = Some (n, x) ->
  n = base + i /\ nth_error l i = Some x.
Proof.
  unfold Reference.enumFrom.
  revert base i; induction l as [|a l IH]; intros base i H.
  - destruct i; discriminate.
  - cbn [List.length seq combine] in H. destruct i as [|i]; cbn [nth_error] in H.
    + inversion H; subst. split; [lia | reflexivity].
    + apply IH in H as [-> H]. split; [lia | exact H].
Qed.

Lemma enumFrom_In {A : Type} (l : list A) (base : nat) (p : nat * A) :
  In p (Reference.enumFrom base l) -> In (snd p) l.
Proof.
  destruct p as [n x]. unfold Reference.enumFrom. intros H.
  apply in_combine_r in H. exact H.
Qed.

Lemma enumFrom_length {A : Type} (l : list A) (base : nat) :
  List.length (Reference.enumFrom base l) = List.length l.
Proof.
  unfold Reference.enumFrom. rewrite length_combine, length_seq. lia.
Qed.

Lemma enumFrom_map_snd {A : Type} (l : list A) (base : nat) :
  map snd (Reference.enumFrom base l) = l.
Proof.
  unfold Reference.enumFrom.
  revert base; induction l as [|a l IH]; intros base; [reflexivity|].
  cbn [List.length seq combine map snd]. now rewrite IH.
Qed.

Lemma enumFrom_sorted {A : Type} (R : A -> A -> Prop) (l : list A) (base : nat) :
  StronglySorted R l ->
  StronglySorted (fun p q => R (snd p) (snd q)) (Reference.enumFrom base l).
Proof.
  unfold Reference.enumFrom. intros H; revert base.
  induction H as [|a l Hl IH Ha]; intros base; [constructor|].
  cbn [List.length seq combine]. constructor; [apply IH|].
  apply Forall_forall. intros [n y] Hy. apply in_combine_r in Hy.
  rewrite Forall_forall in Ha. now apply Ha.
Qed.

Lemma later_tracedMatches_hits (toLowerCase : string -> string)
      (cfg : SearchConfiguration) (h : list ChatHistoryItemWithMessageId) :
  Later.tracedMatches toLowerCase cfg h
  = map (fun p => (Reference.matchOfHit (fst p) (snd p),
                   Reference.hitOffset (snd p)))
        (Reference.enumFrom 0 (Reference.hits toLowerCase cfg h)).
Proof.
  unfold Later.tracedMatches. rewrite scanHistory_hits.
  destruct (String.eqb (queryOf toLowerCase cfg) "") eqn:E.
  - unfold Reference.hits. rewrite <- queryOf_foldCase, E. reflexivity.
  - rewrite (pushHits_enum Later.pushTraced
               (fun n hit => (Reference.matchOfHit n hit, Reference.hitOffset hit)));
      [reflexivity|].
    intros acc hit. unfold Later.pushTraced, Later.pushMatch, Reference.matchOfHit.
    now rewrite length_map.
Qed.

(** C7. The match list produced by the indexer is ordered by message index
    and, within a message, by the offset of the occurrence, both ascending,
    and the match at position [i] has ordinal [i].  The offsets are those at
    which the loop found the occurrences: the traced scan is the match list
    with the found position next to each match, each pair is an occurrence
    of the query in the message the match names, and the pairs are strictly
    increasing in the lexicographic order. *)
Theorem match_list_ordered (toLowerCase : string -> string) (st : WidgetState) :
  let ms := matches (Later.refreshSearch toLowerCase st) in
  let traced := Later.tracedMatches toLowerCase (config st) (history st) in
  map fst traced = ms
  /\ (forall m offset, In (m, offset) traced ->
        isOccurrence toLowerCase (config st) (history st) m offset)
  /\ StronglySorted occursBefore traced
  /\ (forall i m, nth_error ms i = Some m -> index m = i).
Proof.
  cbv zeta. rewrite later_refreshSearch_matches, later_indexMatches_hits,
    later_tracedMatches_hits.
  repeat split.
  - rewrite map_map. reflexivity.
  - intros m offset H. apply in_map_iff in H as [[n x] [E Hx]].
    inversion E; subst; clear E. apply enumFrom_In, hits_inv in Hx.
    cbn [snd fst] in *. destruct Hx as (Hn & Hr & Hp).
    exists (Reference.hitMessageIndex x), (Reference.hitItem x). cbn. auto.
  - eapply StronglySorted_map;
      [|apply enumFrom_sorted, (hits_sorted toLowerCase (config st))].
    intros [n x] [k y] _ _ Hxy. cbn [snd fst] in *.
    exists (Reference.hitMessageIndex x), (Reference.hitMessageIndex y).
    cbn. auto.
  - intros i m H. rewrite nth_error_map in H.
    destruct (nth_error (Reference.enumFrom 0 _) i) as [[n x]|] eqn:E;
      [|discriminate].
    apply enumFrom_nth_error in E as [-> _]. inversion H; subst. reflexivity.
Qed.

(** ** The two revisions of the scan *)

Lemma earlier_refreshSearch_matches (toLowerCase : string -> string)
      (scrollTo : Earlier.ScrollToMatchOption) (st : WidgetState) :
  matches (Earlier.refreshSearch toLowerCase scrollTo st)
  = map (fun p => earlierMatchOfHit (fst p) (snd p))
        (Reference.enumFrom 0 (Reference.hits toLowerCase (config st) (history st))).
Proof.
  unfold Earlier.refreshSearch. rewrite scanHistory_hits.
  destruct (String.eqb (queryOf toLowerCase (config st)) "") eqn:E.
  - unfold Reference.hits. rewrite <- queryOf_foldCase, E. reflexivity.
  - rewrite (pushHits_enum Earlier.pushMatch earlierMatchOfHit)
      by reflexivity.
    cbn [app List.length].
    set (results := map _ _).
    destruct ((1 <? String.length (searchTerm (config st)))
              && negb (List.length results =? 0)); [|reflexivity].
    destruct scrollTo, results as [|r0 rs];
      try destruct (currentMatch st) as [cm|];
      try match goal with
          | |- context [find ?f ?l] => destruct (find f l)
          end;
      split_scroll; reflexivity.
Qed.

(** C10. For every history and configuration the scanning loops of the two
    revisions produce match lists of the same length that agree position by
    position on the ordinal and on the message index; each match of the later
    revision carries the id of the message it names, and the matches of the
    earlier revision carry no message id. *)
Theorem revisions_scan_alike (toLowerCase : string -> string)
        (scrollTo : Earlier.ScrollToMatchOption) (st : WidgetState) :
  let earlier := matches (Earlier.refreshSearch toLowerCase scrollTo st) in
  let later := matches (Later.refreshSearch toLowerCase st) in
  List.length earlier = List.length later
  /\ map index earlier = map index later
  /\ map messageIndex earlier = map messageIndex later
  /\ (forall m, In m later ->
        exists i item, messageIndex m = Some i
                       /\ nth_error (history st) i = Some item
                       /\ messageId m = Some (id (message item)))
  /\ (forall m, In m earlier -> messageId m = None).
Proof.
  cbv zeta. rewrite earlier_refreshSearch_matches, later_refreshSearch_matches,
    later_indexMatches_hits.
  repeat split.
  - now rewrite !length_map.
  - now rewrite !map_map.
  - now rewrite !map_map.
  - intros m H. apply in_map_iff in H as [[n x] [<- Hx]].
    apply enumFrom_In, hits_inv in Hx as (Hn & _).
    exists (Reference.hitMessageIndex x), (Reference.hitItem x). cbn. auto.
  - intros m H. apply in_map_iff in H as [[n x] [<- _]]. reflexivity.
Qed.

(** ** Case folding *)

Lemma enumFrom_map_fst {A : Type} (l : list A) (base : nat) :
  map fst (Reference.enumFrom base l) = seq base (List.length l).
Proof.
  unfold Reference.enumFrom.
  revert base; induction l as [|a l IH]; intros base; [reflexivity|].
  cbn [List.length seq combine map fst]. now rewrite IH.
Qed.

Lemma later_indexMatches_index (toLowerCase : string -> string)
      (cfg : SearchConfiguration) (h : list ChatHistoryItemWithMessageId) :
  map index (Later.indexMatches toLowerCase cfg h)
  = seq 0 (List.length (map hitKey (Reference.hits toLowerCase cfg h))).
Proof.
  rewrite later_indexMatches_hits, map_map, length_map.
  rewrite <- enumFrom_map_fst. reflexivity.
Qed.

Lemma later_indexMatches_messageIndex (toLowerCase : string -> string)
      (cfg : SearchConfiguration) (h : list ChatHistoryItemWithMessageId) :
  map messageIndex (Later.indexMatches toLowerCase cfg h)
  = map (fun k => Some (fst k)) (map hitKey (Reference.hits toLowerCase cfg h)).
Proof.
  rewrite later_indexMatches_hits, !map_map.
  rewrite <- (enumFrom_map_snd (Reference.hits toLowerCase cfg h) 0) at 2.
  rewrite map_map. reflexivity.
Qed.

Lemma lowerCased_hits (toLowerCase : string -> string)
      (cfg cfg' : SearchConfiguration)
      (h h' : list ChatHistoryItemWithMessageId) :
  caseSensitive cfg = false -> caseSensitive cfg' = true ->
  searchTerm cfg' = toLowerCase (searchTerm cfg) ->
  lowerCasedVersion toLowerCase h h' ->
  map hitKey (Reference.hits toLowerCase cfg h)
  = map hitKey (Reference.hits toLowerCase cfg' h').
Proof.
  intros Hc Hc' Hq Hh. unfold Reference.hits, Reference.foldCase.
  rewrite Hc, Hc', Hq.
  destruct (String.eqb (toLowerCase (searchTerm cfg)) ""); [reflexivity|].
  generalize 0 as hi. induction Hh as [|item item' h h' [Hr Ht] Hh IH]; intros hi.
  - reflexivity.
  - cbn [Reference.hitsFrom]. rewrite !map_app, IH. f_equal.
    unfold Reference.hitsOfItem, Reference.foldCase.
    rewrite Hc, Hc', Hq, Hr, <- !textContentOf_flatten, Ht.
    destruct (String.eqb (role (message item)) "system"); [reflexivity|].
    rewrite !map_map. reflexivity.
Qed.

(** C5. A search that is not case sensitive, for [q] on [h], yields the same
    matches as a case-sensitive search for the lower-cased [q] on a version
    of [h] whose flattened texts are lower-cased: the same number of matches,
    the same ordinals and the same message indexes, position by position. *)
Theorem case_fold_equivalence (toLowerCase : string -> string)
        (st st' : WidgetState) :
  caseSensitive (config st) = false ->
  caseSensitive (config st') = true ->
  searchTerm (config st') = toLowerCase (searchTerm (config st)) ->
  lowerCasedVersion toLowerCase (history st) (history st') ->
  let insensitive := matches (Later.refreshSearch toLowerCase st) in
  let sensitive := matches (Later.refreshSearch toLowerCase st') in
  List.length insensitive = List.length sensitive
  /\ map index insensitive = map index sensitive
  /\ map messageIndex insensitive = map messageIndex sensitive.
Proof.
  intros Hc Hc' Hq Hh. cbv zeta. rewrite !later_refreshSearch_matches.
  pose proof (lowerCased_hits toLowerCase _ _ _ _ Hc Hc' Hq Hh) as E.
  assert (Hi : map index (Later.indexMatches toLowerCase (config st) (history st))
               = map index (Later.indexMatches toLowerCase (config st') (history st')))
    by (rewrite !later_indexMatches_index, E; reflexivity).
  repeat split.
  - rewrite <- (length_map index), Hi, length_map. reflexivity.
  - exact Hi.
  - rewrite !later_indexMatches_messageIndex, E. reflexivity.
Qed.

(** ** Navigation *)

Lemma scrollToMatch_matches (m : SearchMatch) (st : WidgetState) :
  matches (scrollToMatch m st) = matches st.
Proof. split_scroll; reflexivity. Qed.

Lemma scrollToMatch_currentMatch (m : SearchMatch) (st : WidgetState) :
  currentMatch (scrollToMatch m st) = Some m.
Proof. split_scroll; reflexivity. Qed.

Lemma nth_error_in_range {A : Type} (l : list A) (i : nat) :
  i < List.length l -> exists x, nth_error l i = Some x.
Proof.
  intros H. destruct (nth_error l i) as [x|] eqn:E; [now exists x|].
  apply nth_error_None in E. lia.
Qed.

Lemma succ_mod (i n : nat) :
  i < n -> (i + 1) mod n = if i + 1 =? n then 0 else i + 1.
Proof.
  intros H. destruct (i + 1 =? n) eqn:E.
  - apply Nat.eqb_eq in E. rewrite E. apply Nat.Div0.mod_same.
  - apply Nat.eqb_neq in E. apply Nat.mod_small. lia.
Qed.

Section Navigation.

Variable st : WidgetState.
Variable cm : SearchMatch.
Variable i : nat.
Hypothesis ordinals : ordinalsArePositions (matches st).
Hypothesis current : currentMatch st = Some cm.
Hypothesis position : nth_error (matches st) i = Some cm.

Let n := List.length (matches st).

Lemma position_in_range : i < n.
Proof. apply nth_error_Some. rewrite position. discriminate. Qed.

Lemma nextMatch_step :
  exists m, nth_error (matches st) ((i + 1) mod n) = Some m
            /\ nextMatch st = Some (scrollToMatch m st).
Proof.
  pose proof position_in_range as Hi.
  destruct (nth_error_in_range (matches st) ((i + 1) mod n)) as [m Hm].
  { apply Nat.mod_upper_bound. lia. }
  exists m. split; [exact Hm|].
  unfold nextMatch, scrollToNth. rewrite current, (ordinals _ _ position).
  fold n. destruct (n =? 0) eqn:E; [apply Nat.eqb_eq in E; lia|].
  now rewrite Hm.
Qed.

Lemma previousMatch_step :
  exists m, nth_error (matches st) (if i =? 0 then n - 1 else i - 1) = Some m
            /\ previousMatch st = Some (scrollToMatch m st).
Proof.
  pose proof position_in_range as Hi.
  destruct (nth_error_in_range (matches st) (if i =? 0 then n - 1 else i - 1))
    as [m Hm].
  { destruct (i =? 0); lia. }
  exists m. split; [exact Hm|].
  unfold previousMatch, scrollToNth. rewrite current, (ordinals _ _ position).
  fold n. destruct (n =? 0) eqn:E; [apply Nat.eqb_eq in E; lia|].
  now rewrite Hm.
Qed.

End Navigation.

Lemma repeat_nextMatch (k : nat) :
  forall (st : WidgetState) (cm : SearchMatch) (i : nat),
    ordinalsArePositions (matches st) ->
    currentMatch st = Some cm ->
    nth_error (matches st) i = Some cm ->
    exists st' m,
      repeatCall nextMatch k st = Some st'
      /\ matches st' = matches st
      /\ currentMatch st' = Some m
      /\ nth_error (matches st) ((i + k) mod List.length (matches st)) = Some m.
Proof.
  induction k as [|k IH]; intros st cm i Hord Hcur Hpos.
  - exists st, cm. cbn [repeatCall]. repeat split; auto.
    rewrite Nat.add_0_r, Nat.mod_small; [exact Hpos|].
    eapply position_in_range; eauto.
  - destruct (nextMatch_step st cm i Hord Hcur Hpos) as [m [Hm Hnext]].
    destruct (IH (scrollToMatch m st) m ((i + 1) mod List.length (matches st)))
      as (st' & m' & Hrun & Hms & Hcur' & Hpos').
    + now rewrite scrollToMatch_matches.
    + apply scrollToMatch_currentMatch.
    + now rewrite scrollToMatch_matches.
    + exists st', m'. cbn [repeatCall]. rewrite Hnext.
      rewrite scrollToMatch_matches in Hms, Hpos'.
      rewrite Nat.Div0.add_mod_idemp_l in Hpos'.
      replace (i + S k) with (i + 1 + k) by lia. auto.
Qed.

(** The two handlers by themselves, with no effect run between their
    calls.  In a state whose match list is not empty and has the ordinals of a
    match list, and whose current match is an element of that list: [next]
    moves to the match whose ordinal is one more modulo the length (from the
    last to the first), [previous] to the one whose ordinal is one less (from
    ordinal 0 to the last); as many calls of [next] as there are matches bring
    the current match back to where it was; and [previous] undoes [next] and
    [next] undoes [previous].  None of these calls throws. *)
Theorem navigation_cycle (st : WidgetState) (cm : SearchMatch) :
  matches st <> [] ->
  ordinalsArePositions (matches st) ->
  currentMatch st = Some cm ->
  In cm (matches st) ->
  let n := List.length (matches st) in
  (exists st1 m, nextMatch st = Some st1 /\ matches st1 = matches st
                 /\ currentMatch st1 = Some m /\ In m (matches st)
                 /\ index m = (index cm + 1) mod n)
  /\ (exists st1 m, previousMatch st = Some st1 /\ matches st1 = matches st
                    /\ currentMatch st1 = Some m /\ In m (matches st)
                    /\ index m = if index cm =? 0 then n - 1 else index cm - 1)
  /\ (exists st', repeatCall nextMatch n st = Some st'
                  /\ matches st' = matches st /\ currentMatch st' = Some cm)
  /\ (exists st1 st2, nextMatch st = Some st1 /\ previousMatch st1 = Some st2
                      /\ matches st2 = matches st /\ currentMatch st2 = Some cm)
  /\ (exists st1 st2, previousMatch st = Some st1 /\ nextMatch st1 = Some st2
                      /\ matches st2 = matches st /\ currentMatch st2 = Some cm).
Proof.
  intros Hne Hord Hcur Hin. cbv zeta.
  apply In_nth_error in Hin as [i Hpos].
  pose proof (Hord _ _ Hpos) as Hidx.
  pose proof (position_in_range st cm i Hpos) as Hi.
  destruct (nextMatch_step st cm i Hord Hcur Hpos) as [mn [Hmn Hnext]].
  destruct (previousMatch_step st cm i Hord Hcur Hpos) as [mp [Hmp Hprev]].
  repeat split.
  - exists (scrollToMatch mn st), mn.
    rewrite scrollToMatch_matches, scrollToMatch_currentMatch, Hidx.
    repeat split; auto. eapply nth_error_In; eauto.
  - exists (scrollToMatch mp st), mp.
    rewrite scrollToMatch_matches, scrollToMatch_currentMatch, Hidx.
    repeat split; auto. eapply nth_error_In; eauto.
  - destruct (repeat_nextMatch (List.length (matches st)) st cm i Hord Hcur Hpos)
      as (st' & m & Hrun & Hms & Hcur' & Hpos').
    exists st'. repeat split; auto.
    replace (i + List.length (matches st))
      with (i + 1 * List.length (matches st)) in Hpos' by lia.
    rewrite Nat.Div0.mod_add, Nat.mod_small in Hpos' by exact Hi.
    congruence.
  - destruct (previousMatch_step (scrollToMatch mn st) mn
                ((i + 1) mod List.length (matches st))) as [m [Hm Hp]].
    + now rewrite scrollToMatch_matches.
    + apply scrollToMatch_currentMatch.
    + now rewrite scrollToMatch_matches.
    + exists (scrollToMatch mn st), (scrollToMatch m (scrollToMatch mn st)).
      rewrite !scrollToMatch_matches, scrollToMatch_currentMatch.
      repeat split; auto. f_equal.
      rewrite scrollToMatch_matches, succ_mod in Hm by exact Hi.
      destruct (i + 1 =? List.length (matches st)) eqn:E.
      * apply Nat.eqb_eq in E. cbn [Nat.eqb] in Hm.
        replace (List.length (matches st) - 1) with i in Hm by lia. congruence.
      * replace (i + 1 =? 0) with false in Hm
          by (symmetry; apply Nat.eqb_neq; lia).
        replace (i + 1 - 1) with i in Hm by lia. congruence.
  - destruct (nextMatch_step (scrollToMatch mp st) mp
                (if i =? 0 then List.length (matches st) - 1 else i - 1))
      as [m [Hm Hn]].
    + now rewrite scrollToMatch_matches.
    + apply scrollToMatch_currentMatch.
    + now rewrite scrollToMatch_matches.
    + exists (scrollToMatch mp st), (scrollToMatch m (scrollToMatch mp st)).
      rewrite !scrollToMatch_matches, scrollToMatch_currentMatch.
      repeat split; auto. f_equal.
      rewrite scrollToMatch_matches in Hm.
      destruct (i =? 0) eqn:E.
      * apply Nat.eqb_eq in E. subst i.
        replace (List.length (matches st) - 1 + 1)
          with (List.length (matches st)) in Hm by lia.
        rewrite Nat.Div0.mod_same in Hm. congruence.
      * apply Nat.eqb_neq in E.
        replace (i - 1 + 1) with i in Hm by lia.
        rewrite Nat.mod_small in Hm by exact Hi. congruence.
Qed.

Lemma navigation_without_target (st : WidgetState) :
  matches st = [] \/ currentMatch st = None ->
  nextMatch st = Some st /\ previousMatch st = Some st.
Proof.
  intros [H|H]; unfold nextMatch, previousMatch; rewrite H.
  - destruct (currentMatch st); auto.
  - auto.
Qed.

(** C9. In a state whose match list is empty or in which no current match is
    set, [next] and [previous] return without any effect: the state,
    with its current match and its log of scroll instructions, is what it
    was. *)
Theorem navigation_noop (st : WidgetState) :
  matches st = [] \/ currentMatch st = None ->
  (nextMatch st = Some st /\ previousMatch st = Some st)
  /\ (forall st', nextMatch st = Some st' \/ previousMatch st = Some st' ->
                  currentMatch st' = currentMatch st /\ log st' = log st).
Proof.
  intros H. destruct (navigation_without_target st H) as [Hn Hp].
  split; [now split|].
  intros st' [E|E]; rewrite ?Hn, ?Hp in E; inversion E; subst; now split.
Qed.

(** ** Re-selection of the current match *)

Lemma later_refreshSearch_empty_query (toLowerCase : string -> string)
      (st : WidgetState) :
  queryOf toLowerCase (config st) = "" ->
  Later.refreshSearch toLowerCase st = setMatches [] st.
Proof.
  intros H. unfold Later.refreshSearch, scanHistory. now rewrite H.
Qed.

(** C6. With an empty query [refreshSearch] returns at once, without an
    exception: the match list is set to the empty list and nothing else
    happens in that call; the current match, the remembered previous term,
    the log of scroll instructions and the pending highlight updates are what
    they were. *)
Theorem empty_query_short_circuits (toLowerCase : string -> string)
        (st : WidgetState) :
  toLowerCase "" = "" ->
  searchTerm (config st) = "" ->
  let st' := Later.refreshSearch toLowerCase st in
  st' = setMatches [] st
  /\ matches st' = []
  /\ currentMatch st' = currentMatch st
  /\ prevSearchTerm st' = prevSearchTerm st
  /\ log st' = log st
  /\ pendingTimeouts st' = pendingTimeouts st.
Proof.
  intros Hl Ht. cbv zeta. rewrite later_refreshSearch_empty_query.
  - repeat split.
  - unfold queryOf. rewrite Ht, Hl. now destruct (caseSensitive (config st)).
Qed.

Lemma find_first (f : SearchMatch -> bool) (l : list SearchMatch) (r : SearchMatch) :
  find f l = Some r ->
  firstSuch (fun x => f x = true) l r.
Proof.
  induction l as [|a l IH]; intros H; [discriminate|].
  cbn [find] in H. destruct (f a) eqn:E.
  - inversion H; subst. exists [], l. repeat split; auto.
  - destruct (IH H) as (before & after & -> & Hr & Hb).
    exists (a :: before), after. repeat split; auto.
    intros x [<-|Hx]; [congruence | now apply Hb].
Qed.


Lemma later_refreshSearch_same_term (toLowerCase : string -> string)
      (st : WidgetState) (cm : SearchMatch) :
  queryOf toLowerCase (config st) <> "" ->
  searchTerm (config st) = prevSearchTerm st ->
  currentMatch st = Some cm ->
  let results := Later.indexMatches toLowerCase (config st) (history st) in
  currentMatch (Later.refreshSearch toLowerCase st)
  = match find (Later.relocates cm) results with
    | Some r => Some r
    | None => hd_error results
    end.
Proof.
  intros Hq Ht Hc. cbv zeta.
  unfold Later.refreshSearch, Later.indexMatches, scanHistory.
  apply String.eqb_neq in Hq. rewrite Hq, Ht, String.eqb_refl, Hc. cbn [negb].
  destruct (find (Later.relocates cm) _); reflexivity.
Qed.

(** In every state the later revision reaches, a current match comes with a
    remembered term that is not empty; so a re-index that finds the term
    unchanged and a current match set is one that scans. *)
Lemma queryOf_nonempty_term (toLowerCase : string -> string)
      (cfg : SearchConfiguration) :
  toLowerCase "" = "" ->
  queryOf toLowerCase cfg <> "" -> searchTerm cfg <> "".
Proof.
  intros Hl Hq Ht. apply Hq. unfold queryOf. rewrite Ht, Hl.
  now destruct (caseSensitive cfg).
Qed.

Lemma later_refreshSearch_currentFromScan (toLowerCase : string -> string)
      (st : WidgetState) :
  toLowerCase "" = "" ->
  currentFromScan st -> currentFromScan (Later.refreshSearch toLowerCase st).
Proof.
  intros Hl Inv. unfold Later.refreshSearch, scanHistory.
  destruct (String.eqb (queryOf toLowerCase (config st)) "") eqn:Eq; [exact Inv|].
  apply String.eqb_neq in Eq.
  pose proof (queryOf_nonempty_term _ _ Hl Eq) as Ht.
  intros _.
  destruct (String.eqb (searchTerm (config st)) (prevSearchTerm st)) eqn:Et;
    cbn [negb].
  - apply String.eqb_eq in Et.
    destruct (currentMatch st) as [cm|].
    + destruct (find _ _); cbn; congruence.
    + destruct (forEachFrom _ _ _ _ _ _); cbn; congruence.
  - destruct (forEachFrom _ _ _ _ _ _); [exact Ht|].
    unfold scrollToMatch. destruct (messageIndex _); cbn;
      try destruct (virtuosoMounted st); exact Ht.
Qed.

Lemma navigation_currentFromScan (st st' : WidgetState) :
  currentFromScan st ->
  nextMatch st = Some st' \/ previousMatch st = Some st' ->
  currentFromScan st'.
Proof.
  intros Inv H. unfold nextMatch, previousMatch, scrollToNth in H.
  destruct (currentMatch st) as [cm|] eqn:Ec.
  - assert (Hp : prevSearchTerm st <> "") by (apply Inv; congruence).
    destruct (List.length (matches st) =? 0).
    + destruct H as [H|H]; inversion H; subst; exact Inv.
    + intros _.
      destruct H as [H|H];
        match type of H with
        | match nth_error ?l ?k with _ => _ end = _ =>
            destruct (nth_error l k) as [m|]; [|discriminate H]
        end;
        inversion H; subst; unfold scrollToMatch;
        destruct (messageIndex m); cbn;
        try destruct (virtuosoMounted st); exact Hp.
  - destruct H as [H|H]; inversion H; subst; exact Inv.
Qed.

Lemma later_handle_currentFromScan (toLowerCase : string -> string)
      (searchWithinContainer : HighlightQuery -> list SearchMatch)
      (e : Event) (st st' : WidgetState) :
  toLowerCase "" = "" ->
  currentFromScan st ->
  Later.handle toLowerCase searchWithinContainer e st = Some st' ->
  currentFromScan st'.
Proof.
  intros Hl Inv H.
  destruct e; cbn [Later.handle] in H;
    try (inversion H; subst; exact Inv).
  - eapply navigation_currentFromScan; eauto.
  - eapply navigation_currentFromScan; eauto.
  - inversion H; subst. unfold Later.searchEffect.
    destruct (disabled st || negb (open st)); [exact Inv|].
    now apply later_refreshSearch_currentFromScan.
  - destruct (pendingTimeouts st); inversion H; subst; exact Inv.
  - destruct (open st); inversion H; subst; exact Inv.
Qed.

Lemma later_run_currentFromScan (toLowerCase : string -> string)
      (searchWithinContainer : HighlightQuery -> list SearchMatch)
      (es : list Event) (st st' : WidgetState) :
  toLowerCase "" = "" ->
  currentFromScan st ->
  Later.run toLowerCase searchWithinContainer es st = Some st' ->
  currentFromScan st'.
Proof.
  intros Hl. revert st; induction es as [|e es IH]; intros st Inv H.
  - inversion H; subst; exact Inv.
  - cbn [Later.run] in H.
    destruct (Later.handle toLowerCase searchWithinContainer e st) as [s|] eqn:E;
      [|discriminate H].
    eapply IH; [|exact H]. eapply later_handle_currentFromScan; eauto.
Qed.

Lemma later_reached_same_term_scans (toLowerCase : string -> string)
      (searchWithinContainer : HighlightQuery -> list SearchMatch)
      (es : list Event) (h : list ChatHistoryItemWithMessageId)
      (isDisabled mounted : bool) (st : WidgetState) :
  (forall s, toLowerCase s = "" <-> s = "") ->
  Later.run toLowerCase searchWithinContainer es
            (initialState h isDisabled mounted) = Some st ->
  currentMatch st <> None ->
  searchTerm (config st) = prevSearchTerm st ->
  queryOf toLowerCase (config st) <> "".
Proof.
  intros Hl Hrun Hc Ht.
  assert (Inv : currentFromScan st).
  { eapply later_run_currentFromScan; [apply Hl; reflexivity | | exact Hrun].
    intros Habs. exfalso. apply Habs. reflexivity. }
  specialize (Inv Hc). rewrite <- Ht in Inv.
  unfold queryOf. destruct (caseSensitive (config st)); [exact Inv|].
  intros Hq. apply (proj1 (Hl _)) in Hq. exact (Inv Hq).
Qed.


(** After a re-index that found something, the current match is set and is
    an element of the new list, whose ordinals are positions: the state
    navigation starts from. *)
Lemma later_refreshSearch_ordinals (toLowerCase : string -> string)
      (st : WidgetState) :
  ordinalsArePositions (matches (Later.refreshSearch toLowerCase st)).
Proof.
  rewrite later_refreshSearch_matches, later_indexMatches_hits.
  intros i m H. rewrite nth_error_map in H.
  destruct (nth_error (Reference.enumFrom 0 _) i) as [[n x]|] eqn:E;
    [|discriminate].
  apply enumFrom_nth_error in E as [-> _]. inversion H; subst. reflexivity.
Qed.

Lemma later_refreshSearch_current_in_matches (toLowerCase : string -> string)
      (st : WidgetState) :
  let st' := Later.refreshSearch toLowerCase st in
  matches st' <> [] ->
  exists cm, currentMatch st' = Some cm /\ In cm (matches st').
Proof.
  cbv zeta. unfold Later.refreshSearch.
  destruct (scanHistory toLowerCase Later.pushMatch (config st) (history st))
    as [results|]; [|intros H; now contradiction H].
  destruct (negb (String.eqb (searchTerm (config st)) (prevSearchTerm st))).
  - destruct results as [|r0 rest].
    + intros H; now contradiction H.
    + intros _. exists r0. unfold scrollToMatch.
      destruct (messageIndex r0); cbn;
        try destruct (virtuosoMounted st); cbn; auto.
  - destruct (currentMatch st) as [cm|].
    + destruct (find (Later.relocates cm) results) as [r|] eqn:E; cbn.
      * intros _. exists r. split; [reflexivity|].
        now apply find_some in E.
      * destruct results as [|r0 rest]; [intros H; now contradiction H|].
        intros _. exists r0. cbn. auto.
    + destruct results as [|r0 rest]; [intros H; now contradiction H|].
      intros _. exists r0. cbn. auto.
Qed.


(** ** Gating by [open] and [disabled] *)

Lemma gated_search_test (st : WidgetState) :
  gated st -> disabled st || negb (open st) = true.
Proof.
  intros [H|H]; rewrite H; [reflexivity | apply orb_true_r].
Qed.

Lemma gated_highlight_test (st : WidgetState) :
  gated st -> negb (open st) || disabled st = true.
Proof.
  intros [H|H]; rewrite H; [apply orb_true_r | reflexivity].
Qed.

Lemma earlier_gated_stays_cleared (toLowerCase : string -> string)
      (searchWithinContainer : HighlightQuery -> list SearchMatch)
      (e : Event) (st st' : WidgetState) :
  cleared st ->
  Earlier.handle toLowerCase searchWithinContainer e st = Some st' ->
  gated st' ->
  cleared st' /\ log st' = log st.
Proof.
  intros (Hm & Hv & Hi) H Hg. unfold cleared.
  destruct e; cbn [Earlier.handle] in H;
    try (inversion H; subst; cbn; auto; fail).
  - rewrite (proj1 (navigation_without_target st (or_introl Hm))) in H.
    inversion H; subst; auto.
  - rewrite (proj2 (navigation_without_target st (or_introl Hm))) in H.
    inversion H; subst; auto.
  - inversion H; subst; clear H. unfold Earlier.searchEffect in *.
    destruct (disabled st || negb (open st)) eqn:E; [cbn; auto|].
    exfalso. apply orb_false_elim in E as [Hd Ho].
    apply negb_false_iff in Ho.
    assert (Hd' : disabled (Earlier.refreshSearch toLowerCase Earlier.first st)
                  = disabled st /\
                  open (Earlier.refreshSearch toLowerCase Earlier.first st)
                  = open st).
    { unfold Earlier.refreshSearch.
      destruct (scanHistory _ _ _ _) as [results|]; [|now split].
      destruct (_ && _); [|now split].
      destruct results; split_scroll; now split. }
    destruct Hd' as [Hd' Ho']. destruct Hg as [Hg|Hg]; congruence.
  - inversion H; subst; clear H. unfold Earlier.highlightEffect in *.
    destruct (negb (open st) || disabled st) eqn:E; [cbn; auto|].
    exfalso. apply orb_false_elim in E as [Ho Hd].
    apply negb_false_iff in Ho.
    destruct Hg as [Hg|Hg]; cbn in Hg; congruence.
  - rewrite Hi in H. inversion H; subst; auto.
Qed.

Lemma later_gated_matches_stay_empty (toLowerCase : string -> string)
      (searchWithinContainer : HighlightQuery -> list SearchMatch)
      (e : Event) (st st' : WidgetState) :
  matches st = [] ->
  Later.handle toLowerCase searchWithinContainer e st = Some st' ->
  gated st' ->
  matches st' = [].
Proof.
  intros Hm H Hg.
  destruct e; cbn [Later.handle] in H;
    try (inversion H; subst; cbn; auto; fail).
  - rewrite (proj1 (navigation_without_target st (or_introl Hm))) in H.
    inversion H; subst; auto.
  - rewrite (proj2 (navigation_without_target st (or_introl Hm))) in H.
    inversion H; subst; auto.
  - inversion H; subst; clear H. unfold Later.searchEffect in *.
    destruct (disabled st || negb (open st)) eqn:E; [reflexivity|].
    exfalso. apply orb_false_elim in E as [Hd Ho].
    apply negb_false_iff in Ho.
    assert (Hd' : disabled (Later.refreshSearch toLowerCase st) = disabled st /\
                  open (Later.refreshSearch toLowerCase st) = open st).
    { unfold Later.refreshSearch.
      destruct (scanHistory _ _ _ _) as [results|]; [|now split].
      destruct (negb _).
      - destruct results; split_scroll; now split.
      - destruct (currentMatch st) as [cm|].
        + destruct (find _ _); now split.
        + destruct results; now split. }
    destruct Hd' as [Hd' Ho']. destruct Hg as [Hg|Hg]; congruence.
  - destruct (pendingTimeouts st); inversion H; subst; auto.
  - destruct (open st); inversion H; subst; auto.
Qed.

(** C8, as the hook has it.  While the widget is closed or externally
    disabled, the search effect of either revision sets the match list to
    the empty list and runs no search, and the match list stays empty under
    every event that leaves the widget closed or disabled.  In the earlier
    revision the highlight effect also empties the visible highlights and
    stops the poll without asking the container for highlights, and from
    then on every event that leaves the widget closed or disabled keeps both
    lists empty and calls no collaborator.  The later revision has no effect
    that empties the visible highlights. *)
Theorem closed_or_disabled_gating (toLowerCase : string -> string)
        (searchWithinContainer : HighlightQuery -> list SearchMatch)
        (st : WidgetState) :
  gated st ->
  Later.searchEffect toLowerCase st = setMatches [] st
  /\ Earlier.searchEffect toLowerCase st = setMatches [] st
  /\ Earlier.highlightEffect searchWithinContainer st
     = setVisibleHighlights [] (setInterval None st)
  /\ cleared (Earlier.highlightEffect searchWithinContainer
                (Earlier.searchEffect toLowerCase st))
  /\ log (Earlier.highlightEffect searchWithinContainer
            (Earlier.searchEffect toLowerCase st)) = log st
  /\ (cleared st ->
      forall e st',
        Earlier.handle toLowerCase searchWithinContainer e st = Some st' ->
        gated st' -> cleared st' /\ log st' = log st)
  /\ (matches st = [] ->
      forall e st',
        Later.handle toLowerCase searchWithinContainer e st = Some st' ->
        gated st' -> matches st' = []).
Proof.
  intros Hg.
  pose proof (gated_search_test st Hg) as Hs.
  pose proof (gated_highlight_test st Hg) as Hh.
  assert (E1 : Earlier.searchEffect toLowerCase st = setMatches [] st)
    by (unfold Earlier.searchEffect; now rewrite Hs).
  assert (E2 : forall s, gated s ->
                 Earlier.highlightEffect searchWithinContainer s
                 = setVisibleHighlights [] (setInterval None s)).
  { intros s Hgs. unfold Earlier.highlightEffect.
    now rewrite (gated_highlight_test s Hgs). }
  refine (conj _ (conj E1 (conj (E2 st Hg) (conj _ (conj _ (conj _ _)))))).
  - unfold Later.searchEffect. now rewrite Hs.
  - rewrite E1, E2; [repeat split | exact Hg].
  - rewrite E1, E2; [reflexivity | exact Hg].
  - intros Hc e st' H Hg'. eapply earlier_gated_stays_cleared; eauto.
  - intros Hm e st' H Hg'. eapply later_gated_matches_stay_empty; eauto.
Qed.

(** ** The navigation and re-selection scenarios *)

Example scenario3 :
  option_map currentMatch (nextMatch Scenario.browsing)
  = Some (Some (Scenario.m 2 1 "m1"))
  /\ option_map currentMatch (repeatCall nextMatch 2 Scenario.browsing)
     = Some (Some (Scenario.m 0 0 "m0")).
Proof. split; reflexivity. Qed.

Example scenario4 :
  currentMatch (Later.refreshSearch asciiToLowerCase
                                    (setSearchTerm "fi" Scenario.browsing))
  = Some (Scenario.m 0 0 "m0").
Proof. reflexivity. Qed.

Example scenario5 :
  currentMatch (Later.refreshSearch asciiToLowerCase
                                    (setHistory Scenario.history2 Scenario.browsing))
  = Some (Scenario.m 1 2 "m1").
Proof. reflexivity. Qed.

Example dismissed_is_reached :
  Later.run asciiToLowerCase Scenario.oneHighlight Scenario.untilDismissed
            (initialState Scenario.history1 false true)
  = Some Scenario.dismissed.
Proof. reflexivity. Qed.

(** In the later revision a highlight update asked for while the widget is
    closed does query the container. *)
Example later_highlights_while_closed :
  open Scenario.dismissed = false
  /\ option_map log (Later.handle asciiToLowerCase Scenario.oneHighlight
                                  HighlightUpdateRequested
                                  (Later.searchEffect asciiToLowerCase
                                                      Scenario.dismissed))
     = Some (log Scenario.dismissed
             ++ [SearchWithinContainer (mkHighlightQuery "find" false false 0)]).
Proof. split; reflexivity. Qed.

(** ** The theorems at the scenarios *)




Lemma navigation_cycle_witness :
  let st := Scenario.browsing in
  let cm := Scenario.m 1 1 "m1" in
  (matches st <> [] /\ ordinalsArePositions (matches st)
   /\ currentMatch st = Some cm /\ In cm (matches st))
  /\ exists st', repeatCall nextMatch (List.length (matches st)) st = Some st'
                 /\ matches st' = matches st /\ currentMatch st' = Some cm.
Proof.
  cbv zeta.
  assert (H1 : matches Scenario.browsing <> []) by (vm_compute; discriminate).
  assert (H2 : ordinalsArePositions (matches Scenario.browsing)).
  { intros i x H. destruct i as [|[|[|i]]]; cbn in H;
      try (inversion H; reflexivity). destruct i; discriminate H. }
  assert (H4 : In (Scenario.m 1 1 "m1") (matches Scenario.browsing))
    by (right; left; reflexivity).
  split; [split; [exact H1 | split; [exact H2 | split; [reflexivity | exact H4]]] |].
  exact (proj1 (proj2 (proj2 (navigation_cycle Scenario.browsing
                                (Scenario.m 1 1 "m1") H1 H2 eq_refl H4)))).
Defined.

Lemma case_fold_equivalence_witness :
  let st := Scenario.opened "FIND" "" false Scenario.history1 [] None in
  let st' := Scenario.opened "find" "" true Scenario.lowered1 [] None in
  lowerCasedVersion asciiToLowerCase (history st) (history st')
  /\ List.length (matches (Later.refreshSearch asciiToLowerCase st))
     = List.length (matches (Later.refreshSearch asciiToLowerCase st')).
Proof.
  cbv zeta.
  assert (H : lowerCasedVersion asciiToLowerCase Scenario.history1
                                Scenario.lowered1)
    by (repeat constructor).
  split; [exact H|].
  exact (proj1 (case_fold_equivalence asciiToLowerCase
                  (Scenario.opened "FIND" "" false Scenario.history1 [] None)
                  (Scenario.opened "find" "" true Scenario.lowered1 [] None)
                  eq_refl eq_refl eq_refl H)).
Defined.

Lemma empty_query_short_circuits_witness :
  let st := setSearchTerm "" Scenario.browsing in
  let st' := Later.refreshSearch asciiToLowerCase st in
  matches st' = [] /\ currentMatch st' = currentMatch st /\ log st' = log st.
Proof.
  cbv zeta.
  destruct (empty_query_short_circuits asciiToLowerCase
              (setSearchTerm "" Scenario.browsing) eq_refl eq_refl)
    as (_ & Hm & Hc & _ & Hl & _).
  repeat split; assumption.
Defined.

Lemma navigation_noop_witness :
  let st := initialState Scenario.history1 false true in
  nextMatch st = Some st /\ previousMatch st = Some st.
Proof.
  exact (proj1 (navigation_noop (initialState Scenario.history1 false true)
                                (or_introl eq_refl))).
Defined.

Lemma closed_or_disabled_gating_witness :
  gated Scenario.dismissed
  /\ Later.searchEffect asciiToLowerCase Scenario.dismissed
     = setMatches [] Scenario.dismissed.
Proof.
  assert (H : gated Scenario.dismissed) by (right; reflexivity).
  split; [exact H|].
  exact (proj1 (closed_or_disabled_gating asciiToLowerCase Scenario.oneHighlight
                  Scenario.dismissed H)).
Defined.

(** The dismissed widget of the later revision: its search effect has run,
    and the highlight found while it was open is still there. *)
Lemma closed_or_disabled_gating_counterexample :
  ~ emptiedWhenGated asciiToLowerCase Scenario.dismissed.
Proof.
  unfold emptiedWhenGated. intros H.
  assert (G : gated Scenario.dismissed) by (right; reflexivity).
  destruct (H G) as [_ Hv]. vm_compute in Hv. discriminate Hv.
Qed.

(** ** More about the scan: spacing, size, completeness *)

Lemma occurrences_apart (q : string) (skip pos : nat) (s : string) :
  StronglySorted (fun a b => a + String.length q <= b)
                 (Reference.occurrences q skip pos s).
Proof.
  revert skip pos; induction s as [|c s' IH]; intros skip pos; [constructor|].
  cbn [Reference.occurrences]. destruct skip as [|skip]; [|apply IH].
  destruct (prefix q (String c s')); [|apply IH].
  constructor; [apply IH|].
  apply Forall_forall. intros o Ho. apply occurrences_from in Ho. lia.
Qed.

Lemma occurrences_count (q : string) (skip pos : nat) (s : string) :
  List.length (Reference.occurrences q skip pos s) * String.length q
  <= String.length s - skip.
Proof.
  revert skip pos; induction s as [|c s' IH]; intros skip pos; [cbn; lia|].
  cbn [Reference.occurrences]. destruct skip as [|skip].
  - destruct (prefix q (String c s')) eqn:E.
    + apply prefix_length in E. cbn [String.length] in *.
      specialize (IH (String.length q - 1) (S pos)).
      cbn [List.length]. rewrite Nat.mul_succ_l.
      set (X := _ * _) in *. clearbody X. lia.
    + specialize (IH 0 (S pos)). cbn [String.length]. lia.
  - specialize (IH skip (S pos)). cbn [String.length]. lia.
Qed.

Lemma occurrences_complete (q : string) (pos o : nat) (s : string) :
  q <> "" -> prefix q (drop o s) = true ->
  Reference.occurrences q 0 pos s <> [].
Proof.
  intros Hq Ho. rewrite occurrences_unfold by exact Hq.
  destruct (indexOfAux s q pos) as [k|] eqn:E; [discriminate|].
  rewrite (indexOfAux_none _ _ _ o E) in Ho. discriminate.
Qed.

Lemma enumFrom_app {A : Type} (l1 l2 : list A) (base : nat) :
  Reference.enumFrom base (l1 ++ l2)
  = Reference.enumFrom base l1
    ++ Reference.enumFrom (base + List.length l1) l2.
Proof.
  unfold Reference.enumFrom. revert base; induction l1 as [|a l1 IH]; intros base.
  - cbn. now rewrite Nat.add_0_r.
  - cbn [app List.length seq combine]. rewrite IH.
    replace (base + S (List.length l1)) with (S base + List.length l1) by lia.
    reflexivity.
Qed.

Lemma In_enumFrom {A : Type} (l : list A) (base : nat) (x : A) :
  In x l -> exists n, In (n, x) (Reference.enumFrom base l).
Proof.
  unfold Reference.enumFrom. revert base; induction l as [|a l IH]; intros base H.
  - destruct H.
  - cbn [List.length seq combine]. destruct H as [->|H].
    + exists base. now left.
    + destruct (IH (S base) H) as [n Hn]. exists n. now right.
Qed.

Section MoreHitFacts.

Variable toLowerCase : string -> string.
Variable cfg : SearchConfiguration.

Lemma hitsFrom_app (h h' : list ChatHistoryItemWithMessageId) (hi : nat) :
  Reference.hitsFrom toLowerCase cfg hi (h ++ h')
  = Reference.hitsFrom toLowerCase cfg hi h
    ++ Reference.hitsFrom toLowerCase cfg (hi + List.length h) h'.
Proof.
  revert hi; induction h as [|item rest IH]; intros hi.
  - cbn. now rewrite Nat.add_0_r.
  - cbn [app Reference.hitsFrom List.length]. rewrite IH, <- app_assoc.
    replace (hi + S (List.length rest)) with (S hi + List.length rest) by lia.
    reflexivity.
Qed.

Lemma hitsFrom_apart (h : list ChatHistoryItemWithMessageId) (hi : nat) :
  StronglySorted (hitApart (String.length (queryOf toLowerCase cfg)))
                 (Reference.hitsFrom toLowerCase cfg hi h).
Proof.
  revert hi; induction h as [|item rest IH]; intros hi; [constructor|].
  cbn [Reference.hitsFrom]. apply StronglySorted_app.
  - unfold Reference.hitsOfItem.
    destruct (String.eqb (role (message item)) "system"); [constructor|].
    eapply StronglySorted_map; [|apply occurrences_apart].
    intros x y _ _ Hxy _. cbn. exact Hxy.
  - apply IH.
  - intros x y Hx Hy E. apply hitsOfItem_inv in Hx as (Hx & _).
    apply hitsFrom_inv in Hy as (Hy & _). lia.
Qed.

Lemma hitsFrom_count (h : list ChatHistoryItemWithMessageId) (hi : nat) :
  List.length (Reference.hitsFrom toLowerCase cfg hi h)
  * String.length (queryOf toLowerCase cfg)
  <= scannedLength toLowerCase cfg h.
Proof.
  revert hi; induction h as [|item rest IH]; intros hi; [cbn; lia|].
  cbn [Reference.hitsFrom].
  change (scannedLength toLowerCase cfg (item :: rest))
    with ((if String.eqb (role (message item)) "system" then 0
           else String.length
                  (textToCheckOf toLowerCase cfg (content (message item))))
          + scannedLength toLowerCase cfg rest).
  rewrite length_app, Nat.mul_add_distr_r.
  specialize (IH (S hi)).
  assert (List.length (Reference.hitsOfItem toLowerCase cfg hi item)
          * String.length (queryOf toLowerCase cfg)
          <= if String.eqb (role (message item)) "system" then 0
             else String.length
                    (textToCheckOf toLowerCase cfg (content (message item)))).
  { unfold Reference.hitsOfItem.
    destruct (String.eqb (role (message item)) "system"); [cbn; lia|].
    rewrite length_map, textToCheckOf_foldCase.
    pose proof (occurrences_count
                  (Reference.foldCase toLowerCase cfg (searchTerm cfg)) 0 0
                  (Reference.foldCase toLowerCase cfg
                     (Reference.flatten (content (message item))))) as Hc.
    rewrite Nat.sub_0_r in Hc. exact Hc. }
  lia.
Qed.

Lemma hitsFrom_complete (h : list ChatHistoryItemWithMessageId) (hi i o : nat)
      (item : ChatHistoryItemWithMessageId) :
  queryOf toLowerCase cfg <> "" ->
  nth_error h i = Some item ->
  String.eqb (role (message item)) "system" = false ->
  prefix (queryOf toLowerCase cfg)
         (drop o (textToCheckOf toLowerCase cfg (content (message item)))) = true ->
  exists x, In x (Reference.hitsFrom toLowerCase cfg hi h)
            /\ Reference.hitMessageIndex x = hi + i
            /\ Reference.hitItem x = item.
Proof.
  intros Hq. revert hi i; induction h as [|a rest IH]; intros hi i Hn Hr Hp.
  - destruct i; discriminate.
  - cbn [Reference.hitsFrom]. destruct i as [|i]; cbn [nth_error] in Hn.
    + inversion Hn; subst a; clear Hn.
      rewrite textToCheckOf_foldCase in Hp.
      pose proof (occurrences_complete _ 0 _ _ Hq Hp) as Hne.
      unfold Reference.hitsOfItem. rewrite Hr.
      destruct (Reference.occurrences _ 0 0 _) as [|o1 os]; [congruence|].
      exists (Reference.mkHit hi item o1). cbn. split; [now left|].
      split; [lia | reflexivity].
    + destruct (IH (S hi) i Hn Hr Hp) as [x (Hx & Hm & Hi)].
      exists x. split; [apply in_or_app; now right|]. split; [lia | exact Hi].
Qed.

End MoreHitFacts.

Lemma hits_nonempty_query (toLowerCase : string -> string)
      (cfg : SearchConfiguration) (h : list ChatHistoryItemWithMessageId)
      (x : Reference.Hit) :
  In x (Reference.hits toLowerCase cfg h) -> queryOf toLowerCase cfg <> "".
Proof.
  unfold Reference.hits. rewrite <- queryOf_foldCase.
  destruct (String.eqb (queryOf toLowerCase cfg) "") eqn:E; [intros []|].
  intros _. now apply String.eqb_neq.
Qed.

(** X1. No two recorded occurrences overlap and each lies inside its text:
    of two entries of the traced scan for the same message, the later one
    starts at or after the end of the span of the earlier one, and the span
    of every entry ends within the scanned text of its message. *)
Theorem occurrences_never_overlap (toLowerCase : string -> string)
        (cfg : SearchConfiguration) (h : list ChatHistoryItemWithMessageId) :
  let width := String.length (queryOf toLowerCase cfg) in
  let traced := Later.tracedMatches toLowerCase cfg h in
  StronglySorted (occursApart width) traced
  /\ (forall m offset, In (m, offset) traced ->
        exists i item,
          messageIndex m = Some i /\ nth_error h i = Some item
          /\ offset + width
             <= String.length
                  (textToCheckOf toLowerCase cfg (content (message item)))).
Proof.
  cbv zeta. rewrite later_tracedMatches_hits. split.
  - assert (Hs : StronglySorted
                   (hitApart (String.length (queryOf toLowerCase cfg)))
                   (Reference.hits toLowerCase cfg h)).
    { unfold Reference.hits.
      destruct (String.eqb _ ""); [constructor | apply hitsFrom_apart]. }
    apply (StronglySorted_map
             (fun p q => hitApart (String.length (queryOf toLowerCase cfg))
                                  (snd p) (snd q)));
      [|apply enumFrom_sorted, Hs].
    intros [n x] [k y] _ _ Hxy E. cbn in *. apply Hxy. congruence.
  - intros m offset H. apply in_map_iff in H as [[n x] [E Hx]].
    inversion E; subst; clear E. apply enumFrom_In in Hx. cbn [snd fst] in *.
    pose proof (hits_nonempty_query _ _ _ _ Hx) as Hq.
    apply hits_inv in Hx as (Hn & _ & Hp).
    exists (Reference.hitMessageIndex x), (Reference.hitItem x).
    repeat split; auto.
    apply prefix_length in Hp. rewrite length_drop in Hp.
    apply length_nonempty in Hq. lia.
Qed.

(** X2. The number of matches times the length of the query, as it is
    scanned for, is at most the number of code units scanned: the texts of
    the messages that are not system messages. *)
Theorem match_count_bounded (toLowerCase : string -> string) (st : WidgetState) :
  List.length (matches (Later.refreshSearch toLowerCase st))
  * String.length (queryOf toLowerCase (config st))
  <= scannedLength toLowerCase (config st) (history st).
Proof.
  rewrite later_refreshSearch_matches, later_indexMatches_hits.
  rewrite length_map, enumFrom_length. unfold Reference.hits.
  destruct (String.eqb _ ""); [cbn; lia | apply hitsFrom_count].
Qed.

(** X3. With a query that is not empty, the message at position [i] of the
    history has a match in the new list exactly when it is not a system
    message and the query occurs somewhere in its scanned text. *)
Theorem message_matched_iff_contains (toLowerCase : string -> string)
        (st : WidgetState) (i : nat) (item : ChatHistoryItemWithMessageId) :
  queryOf toLowerCase (config st) <> "" ->
  nth_error (history st) i = Some item ->
  (exists m, In m (matches (Later.refreshSearch toLowerCase st))
             /\ messageIndex m = Some i)
  <->
  (String.eqb (role (message item)) "system" = false
   /\ exists offset,
       prefix (queryOf toLowerCase (config st))
              (drop offset (textToCheckOf toLowerCase (config st)
                                          (content (message item)))) = true).
Proof.
  intros Hq Hn. rewrite later_refreshSearch_matches, later_indexMatches_hits.
  split.
  - intros [m [Hm Hi]]. apply in_map_iff in Hm as [[n x] [<- Hx]].
    apply enumFrom_In, hits_inv in Hx as (Hx & Hr & Hp).
    cbn in Hi, Hx, Hr, Hp. inversion Hi; subst i.
    rewrite Hn in Hx. inversion Hx; subst item.
    split; [exact Hr | eauto].
  - intros [Hr [offset Hp]].
    destruct (hitsFrom_complete toLowerCase (config st) (history st) 0 i offset
                                item Hq Hn Hr Hp) as [x (Hx & Hm & _)].
    assert (Hx' : In x (Reference.hits toLowerCase (config st) (history st))).
    { unfold Reference.hits. rewrite <- queryOf_foldCase.
      apply String.eqb_neq in Hq. now rewrite Hq. }
    destruct (In_enumFrom _ 0 x Hx') as [n Hnx].
    exists (Reference.matchOfHit n x). split.
    + apply in_map_iff. exists (n, x). auto.
    + cbn. now rewrite Hm.
Qed.

Lemma enumFrom_In_fst {A : Type} (l : list A) (base n : nat) (x : A) :
  In (n, x) (Reference.enumFrom base l) -> base <= n.
Proof.
  intros H. apply In_nth_error in H as [i Hi].
  apply enumFrom_nth_error in Hi as [-> _]. lia.
Qed.

(** X4. Messages appended to the history leave the matches found so far as
    they are: the new list is the old list followed by matches whose
    ordinals continue the count and whose messages are among the appended
    ones. *)
Theorem appended_history_keeps_matches (toLowerCase : string -> string)
        (st : WidgetState) (appended : list ChatHistoryItemWithMessageId) :
  let old := matches (Later.refreshSearch toLowerCase st) in
  let new := matches (Later.refreshSearch toLowerCase
                        (setHistory (history st ++ appended) st)) in
  exists added,
    new = old ++ added
    /\ forall m, In m added ->
         List.length old <= index m
         /\ exists i, messageIndex m = Some i /\ List.length (history st) <= i.
Proof.
  cbv zeta. rewrite !later_refreshSearch_matches, !later_indexMatches_hits.
  cbn [history config setHistory]. unfold Reference.hits.
  destruct (String.eqb _ "").
  - exists []. split; [reflexivity | intros m []].
  - rewrite hitsFrom_app, enumFrom_app, map_app. cbn [Nat.add].
    eexists. split; [reflexivity|].
    intros m H. apply in_map_iff in H as [[n x] [<- Hx]].
    pose proof (enumFrom_In_fst _ _ _ _ Hx) as Hn.
    apply enumFrom_In, hitsFrom_inv in Hx as (Hx & _).
    cbn [fst snd] in *. split.
    + rewrite length_map, enumFrom_length. cbn. exact Hn.
    + exists (Reference.hitMessageIndex x). split; [reflexivity | exact Hx].
Qed.

Lemma scanHistory_useRegex {A : Type} (toLowerCase : string -> string)
      (push : ChatHistoryItemWithMessageId -> nat -> list A -> nat -> A)
      (term : string) (cs r r' : bool) (h : list ChatHistoryItemWithMessageId) :
  scanHistory toLowerCase push (mkConfig term cs r) h
  = scanHistory toLowerCase push (mkConfig term cs r') h.
Proof.
  unfold scanHistory.
  change (queryOf toLowerCase (mkConfig term cs r'))
    with (queryOf toLowerCase (mkConfig term cs r)).
  destruct (String.eqb _ ""); reflexivity.
Qed.

(** X5. The regular-expression flag is accepted and never read by the
    indexer: a re-index with the flag set either way produces the same match
    list, the same current match, the same remembered term and the same
    scroll instructions. *)
Theorem useRegex_has_no_effect (toLowerCase : string -> string)
        (st : WidgetState) (b : bool) :
  let plain := Later.refreshSearch toLowerCase st in
  let flagged := Later.refreshSearch toLowerCase (setUseRegex b st) in
  matches flagged = matches plain
  /\ currentMatch flagged = currentMatch plain
  /\ prevSearchTerm flagged = prevSearchTerm plain
  /\ log flagged = log plain.
Proof.
  cbv zeta. unfold Later.refreshSearch, setUseRegex.
  cbn [config history setConfig searchTerm prevSearchTerm currentMatch].
  destruct (config st) as [term cs r] eqn:Ec. cbn [searchTerm caseSensitive].
  rewrite (scanHistory_useRegex toLowerCase Later.pushMatch term cs b r).
  destruct (scanHistory toLowerCase Later.pushMatch (mkConfig term cs r) (history st))
    as [results|]; [|cbn; auto].
  destruct (negb (String.eqb term (prevSearchTerm st))).
  - destruct results as [|r0 rest]; [cbn; auto|].
    unfold scrollToMatch. destruct (messageIndex r0); cbn;
      try destruct (virtuosoMounted st); cbn; auto.
  - destruct (currentMatch st) as [cm|].
    + destruct (find (Later.relocates cm) results); cbn; auto.
    + destruct results; cbn; auto.
Qed.

Lemma scanHistory_flattened (toLowerCase : string -> string)
      (cfg : SearchConfiguration) (h : list ChatHistoryItemWithMessageId) :
  scanHistory toLowerCase Later.pushMatch cfg (map flattened h)
  = scanHistory toLowerCase Later.pushMatch cfg h.
Proof.
  unfold scanHistory. destruct (String.eqb _ ""); [reflexivity|]. f_equal.
  generalize 0 as hi. generalize (@nil SearchMatch) as results.
  induction h as [|item rest IH]; intros results hi; [reflexivity|].
  cbn [map forEachFrom]. rewrite IH. reflexivity.
Qed.

(** X6. A message is searched through the concatenation of its text parts
    only: replacing the content of every message by that one string (so that
    image parts are gone and adjacent text parts are joined) changes neither
    the match list nor the current match chosen. *)
Theorem content_searched_as_joined_text (toLowerCase : string -> string)
        (st : WidgetState) :
  let joined := setHistory (map flattened (history st)) st in
  matches (Later.refreshSearch toLowerCase joined)
  = matches (Later.refreshSearch toLowerCase st)
  /\ currentMatch (Later.refreshSearch toLowerCase joined)
     = currentMatch (Later.refreshSearch toLowerCase st).
Proof.
  cbv zeta. unfold Later.refreshSearch.
  cbn [config history setHistory searchTerm prevSearchTerm currentMatch].
  rewrite scanHistory_flattened.
  destruct (scanHistory toLowerCase Later.pushMatch (config st) (history st))
    as [results|]; [|cbn; auto].
  destruct (negb (String.eqb (searchTerm (config st)) (prevSearchTerm st))).
  - destruct results as [|r0 rest]; [cbn; auto|].
    unfold scrollToMatch. destruct (messageIndex r0); cbn;
      try destruct (virtuosoMounted st); cbn; auto.
  - destruct (currentMatch st) as [cm|].
    + destruct (find (Later.relocates cm) results); cbn; auto.
    + destruct results; cbn; auto.
Qed.

(** ** More about navigation and re-selection *)

Lemma navigable_initial (h : list ChatHistoryItemWithMessageId)
      (isDisabled mounted : bool) :
  navigable (initialState h isDisabled mounted).
Proof.
  split.
  - intros i m H. destruct i; discriminate H.
  - intros H. now contradiction H.
Qed.

Lemma navigable_index_in_range (st : WidgetState) (cm : SearchMatch) :
  navigable st -> matches st <> [] -> currentMatch st = Some cm ->
  index cm < List.length (matches st).
Proof.
  intros [Hord Hcur] Hne Hc. destruct (Hcur Hne) as [cm' [Hc' Hin]].
  assert (cm' = cm) by congruence. subst cm'.
  apply In_nth_error in Hin as [i Hi].
  rewrite (Hord _ _ Hi). apply nth_error_Some. rewrite Hi. discriminate.
Qed.

Lemma matches_nonempty_length (st : WidgetState) :
  (List.length (matches st) =? 0) = false -> matches st <> [].
Proof.
  intros H E. rewrite E in H. discriminate H.
Qed.

Lemma navigation_keeps_navigable (st st' : WidgetState) :
  navigable st ->
  nextMatch st = Some st' \/ previousMatch st = Some st' ->
  navigable st'.
Proof.
  intros Hnav H. unfold nextMatch, previousMatch, scrollToNth in H.
  destruct (currentMatch st) as [cm|] eqn:Ec.
  - destruct (List.length (matches st) =? 0) eqn:En.
    + destruct H as [H|H]; inversion H; subst; exact Hnav.
    + destruct H as [H|H];
        match type of H with
        | match nth_error ?l ?k with _ => _ end = _ =>
            destruct (nth_error l k) as [m|] eqn:Em; [|discriminate H]
        end;
        inversion H; subst; split;
        rewrite ?scrollToMatch_matches, ?scrollToMatch_currentMatch;
        try exact (proj1 Hnav);
        intros _; exists m; split; try reflexivity;
        eapply nth_error_In; eauto.
  - destruct H as [H|H]; inversion H; subst; exact Hnav.
Qed.

Lemma later_handle_navigable (toLowerCase : string -> string)
      (searchWithinContainer : HighlightQuery -> list SearchMatch)
      (e : Event) (st st' : WidgetState) :
  navigable st ->
  Later.handle toLowerCase searchWithinContainer e st = Some st' ->
  navigable st'.
Proof.
  intros Hnav H.
  destruct e; cbn [Later.handle] in H;
    try (inversion H; subst; exact Hnav).
  - eapply navigation_keeps_navigable; eauto.
  - eapply navigation_keeps_navigable; eauto.
  - inversion H; subst. unfold Later.searchEffect.
    destruct (disabled st || negb (open st)).
    + split; cbn.
      * intros i m Hi. destruct i; discriminate Hi.
      * intros Hne. now contradiction Hne.
    + split; [apply later_refreshSearch_ordinals|].
      apply later_refreshSearch_current_in_matches.
  - destruct (pendingTimeouts st); inversion H; subst; exact Hnav.
  - destruct (open st); inversion H; subst; exact Hnav.
Qed.

Lemma later_run_navigable (toLowerCase : string -> string)
      (searchWithinContainer : HighlightQuery -> list SearchMatch)
      (es : list Event) (st st' : WidgetState) :
  navigable st ->
  Later.run toLowerCase searchWithinContainer es st = Some st' ->
  navigable st'.
Proof.
  revert st; induction es as [|e es IH]; intros st Hnav H.
  - inversion H; subst; exact Hnav.
  - cbn [Later.run] in H.
    destruct (Later.handle toLowerCase searchWithinContainer e st) as [s|] eqn:E;
      [|discriminate H].
    eapply IH; [|exact H]. eapply later_handle_navigable; eauto.
Qed.

Lemma nextMatch_returns (st : WidgetState) :
  exists st', nextMatch st = Some st'.
Proof.
  unfold nextMatch, scrollToNth. destruct (currentMatch st) as [cm|]; [|eauto].
  destruct (List.length (matches st) =? 0) eqn:En; [eauto|].
  destruct (nth_error_in_range (matches st)
              ((index cm + 1) mod List.length (matches st))) as [m Hm].
  - apply Nat.mod_upper_bound. apply Nat.eqb_neq in En. exact En.
  - rewrite Hm. eauto.
Qed.

Lemma previousMatch_throws_iff (st : WidgetState) :
  previousMatch st = None
  <-> exists cm, currentMatch st = Some cm
                 /\ 0 < List.length (matches st)
                 /\ List.length (matches st) < index cm.
Proof.
  unfold previousMatch, scrollToNth. split.
  - destruct (currentMatch st) as [cm|]; [|discriminate].
    destruct (List.length (matches st) =? 0) eqn:En; [discriminate|].
    apply Nat.eqb_neq in En.
    destruct (nth_error (matches st) _) as [m|] eqn:Em; [discriminate|].
    intros _. exists cm. apply nth_error_None in Em.
    destruct (index cm =? 0) eqn:E0; [lia|].
    apply Nat.eqb_neq in E0. repeat split; auto; lia.
  - intros [cm (Hc & Hn & Hi)]. rewrite Hc.
    destruct (List.length (matches st) =? 0) eqn:En;
      [apply Nat.eqb_eq in En; lia|].
    destruct (index cm =? 0) eqn:E0; [apply Nat.eqb_eq in E0; lia|].
    destruct (nth_error (matches st) (index cm - 1)) as [m|] eqn:Em;
      [|reflexivity].
    assert (index cm - 1 < List.length (matches st))
      by (apply nth_error_Some; rewrite Em; discriminate).
    lia.
Qed.

(** X7. From the mount of the later hook on, whatever happens, a match list
    that is not empty has the ordinals of its positions and comes with a
    current match that is one of its elements. *)
Theorem later_widget_stays_navigable (toLowerCase : string -> string)
        (searchWithinContainer : HighlightQuery -> list SearchMatch)
        (es : list Event) (h : list ChatHistoryItemWithMessageId)
        (isDisabled mounted : bool) (st : WidgetState) :
  Later.run toLowerCase searchWithinContainer es
            (initialState h isDisabled mounted) = Some st ->
  ordinalsArePositions (matches st)
  /\ (matches st <> [] ->
      exists cm, currentMatch st = Some cm /\ In cm (matches st)).
Proof.
  intros H. eapply later_run_navigable; [apply navigable_initial | exact H].
Qed.

(** X8. The counter of the later widget never reads past the total: in
    every state reached from the mount it is "No results", or "k of n" with
    [n] the number of matches and [1 <= k <= n]. *)
Theorem counter_label_in_range (toLowerCase : string -> string)
        (searchWithinContainer : HighlightQuery -> list SearchMatch)
        (es : list Event) (h : list ChatHistoryItemWithMessageId)
        (isDisabled mounted : bool) (st : WidgetState) :
  Later.run toLowerCase searchWithinContainer es
            (initialState h isDisabled mounted) = Some st ->
  (matches st = [] /\ counterLabel st = NoResults)
  \/ exists k, counterLabel st = Position k (List.length (matches st))
               /\ 1 <= k <= List.length (matches st).
Proof.
  intros H.
  pose proof (later_run_navigable _ _ _ _ _ (navigable_initial h isDisabled mounted) H)
    as Hnav.
  unfold counterLabel. destruct (List.length (matches st) =? 0) eqn:En.
  - left. split; [|reflexivity].
    apply Nat.eqb_eq in En. now destruct (matches st).
  - right. pose proof (matches_nonempty_length st En) as Hne.
    destruct (proj2 Hnav Hne) as [cm [Hc _]]. rewrite Hc.
    exists (index cm + 1). split; [reflexivity|].
    pose proof (navigable_index_in_range st cm Hnav Hne Hc). lia.
Qed.

(** X9. [next] never throws, in any state: the index it computes is taken
    modulo the length.  [previous] throws exactly when the match list is not
    empty and the ordinal of the current match is greater than its length,
    the one case in which [index - 1] is out of range. *)
Theorem navigation_throws_only_backwards (st : WidgetState) :
  (exists st', nextMatch st = Some st')
  /\ (previousMatch st = None
      <-> exists cm, currentMatch st = Some cm
                     /\ 0 < List.length (matches st)
                     /\ List.length (matches st) < index cm).
Proof.
  split; [apply nextMatch_returns | apply previousMatch_throws_iff].
Qed.

(** X10. No run of events makes the later hook throw: from the mount on,
    every event is handled. *)
Theorem later_events_never_throw (toLowerCase : string -> string)
        (searchWithinContainer : HighlightQuery -> list SearchMatch)
        (es : list Event) (h : list ChatHistoryItemWithMessageId)
        (isDisabled mounted : bool) :
  exists st,
    Later.run toLowerCase searchWithinContainer es
              (initialState h isDisabled mounted) = Some st.
Proof.
  generalize (navigable_initial h isDisabled mounted).
  generalize (initialState h isDisabled mounted) as st.
  induction es as [|e es IH]; intros st Hnav; [now exists st|].
  cbn [Later.run].
  destruct (Later.handle toLowerCase searchWithinContainer e st) as [s|] eqn:E.
  - apply IH. eapply later_handle_navigable; eauto.
  - exfalso. destruct e; cbn [Later.handle] in E; try discriminate E.
    + destruct (nextMatch_returns st) as [s Hs]. congruence.
    + apply previousMatch_throws_iff in E as [cm (Hc & Hn & Hi)].
      assert (Hne : matches st <> [])
        by (intros Hm; rewrite Hm in Hn; cbn in Hn; lia).
      pose proof (navigable_index_in_range st cm Hnav Hne Hc). lia.
    + destruct (pendingTimeouts st); discriminate E.
    + destruct (open st); discriminate E.
Qed.

Lemma relocates_self (cm : SearchMatch) : Later.relocates cm cm = true.
Proof.
  unfold Later.relocates. destruct (truthy (messageId cm)); cbn.
  - destruct (messageId cm) as [s|]; cbn; [|reflexivity].
    now rewrite String.eqb_refl.
  - destruct (messageIndex cm) as [i|]; cbn; [|reflexivity].
    apply Nat.eqb_refl.
Qed.

Lemma find_least_ordinal (f : SearchMatch -> bool) (l : list SearchMatch)
      (r : SearchMatch) :
  ordinalsArePositions l -> find f l = Some r ->
  In r l /\ f r = true
  /\ forall x, In x l -> f x = true -> index r <= index x.
Proof.
  intros Hord H. pose proof (find_some _ _ H) as [Hin Hf].
  repeat split; auto.
  destruct (find_first _ _ _ H) as (before & after & E & _ & Hb).
  assert (Hr : index r = List.length before).
  { apply Hord. rewrite E, nth_error_app2, Nat.sub_diag by lia. reflexivity. }
  intros x Hx Hfx. apply In_nth_error in Hx as [j Hj].
  rewrite (Hord _ _ Hj), Hr.
  destruct (Nat.lt_ge_cases j (List.length before)) as [Hlt|Hge]; [|exact Hge].
  exfalso. rewrite E, nth_error_app1 in Hj by exact Hlt.
  apply nth_error_In in Hj. exact (Hb x Hj Hfx).
Qed.

(** X11. A re-index that finds the term unchanged never moves the current
    match forward.  If the current match is in the freshly computed list, the
    new current match is the match of least ordinal that the relocation
    predicate accepts (same message id, or same message index when the id is
    empty or absent): its ordinal is at most the previous one, so a current
    match that is not the first occurrence in its message falls back to the
    first. *)
Theorem reindex_never_advances (toLowerCase : string -> string)
        (st : WidgetState) (cm : SearchMatch) :
  queryOf toLowerCase (config st) <> "" ->
  searchTerm (config st) = prevSearchTerm st ->
  currentMatch st = Some cm ->
  In cm (Later.indexMatches toLowerCase (config st) (history st)) ->
  let st' := Later.refreshSearch toLowerCase st in
  exists r,
    currentMatch st' = Some r /\ In r (matches st')
    /\ Later.relocates cm r = true
    /\ index r <= index cm
    /\ forall x, In x (matches st') -> Later.relocates cm x = true ->
                 index r <= index x.
Proof.
  intros Hq Ht Hc Hin. cbv zeta.
  rewrite later_refreshSearch_matches,
    (later_refreshSearch_same_term _ _ _ Hq Ht Hc).
  pose proof (later_refreshSearch_ordinals toLowerCase st) as Hord.
  rewrite later_refreshSearch_matches in Hord.
  destruct (find (Later.relocates cm) _) as [r|] eqn:E.
  - destruct (find_least_ordinal _ _ _ Hord E) as (Hr & Hf & Hleast).
    exists r. repeat split; auto. apply Hleast; [exact Hin | apply relocates_self].
  - pose proof (find_none _ _ E cm Hin) as Hf.
    rewrite relocates_self in Hf. discriminate Hf.
Qed.

Lemma later_refreshSearch_log (toLowerCase : string -> string)
        (st : WidgetState) :
  let st' := Later.refreshSearch toLowerCase st in
  (searchTerm (config st) = prevSearchTerm st -> log st' = log st)
  /\ (log st' = log st
      \/ exists r0 i item,
          log st' = log st ++ [ScrollToIndex i]
          /\ searchTerm (config st) <> prevSearchTerm st
          /\ virtuosoMounted st = true
          /\ hd_error (matches st') = Some r0
          /\ currentMatch st' = Some r0
          /\ messageIndex r0 = Some i
          /\ nth_error (history st) i = Some item).
Proof.
  cbv zeta.
  pose proof (later_refreshSearch_matches toLowerCase st) as Hm.
  pose proof (later_indexMatches_hits toLowerCase (config st) (history st)) as Hh.
  unfold Later.refreshSearch in *. unfold Later.indexMatches in Hh.
  destruct (scanHistory toLowerCase Later.pushMatch (config st) (history st))
    as [results|]; [|cbn; auto].
  destruct (String.eqb (searchTerm (config st)) (prevSearchTerm st)) eqn:Et;
    cbn [negb] in *.
  - split; [intros _|left];
      (destruct (currentMatch st) as [cm|];
       [destruct (find (Later.relocates cm) results) | destruct results]);
      reflexivity.
  - apply String.eqb_neq in Et. split; [congruence|].
    destruct results as [|r0 rest]; [left; reflexivity|].
    assert (Hr0 : exists i item, messageIndex r0 = Some i
                                 /\ nth_error (history st) i = Some item).
    { assert (Hin : In r0 (r0 :: rest)) by now left.
      rewrite Hh in Hin. apply in_map_iff in Hin as [[n x] [<- Hx]].
      apply enumFrom_In, hits_inv in Hx as (Hx & _).
      exists (Reference.hitMessageIndex x), (Reference.hitItem x). cbn. auto. }
    destruct Hr0 as (i & item & Hi & Hitem).
    unfold scrollToMatch. rewrite Hi. cbn.
    destruct (virtuosoMounted st) eqn:Ev; cbn; [|left; reflexivity].
    right. exists r0, i, item. repeat split; auto.
Qed.

(** X12. A re-index scrolls at most once, and only to a message of the
    history: it issues no scroll instruction when the term is unchanged; when
    it issues one, the term has changed, the handle is mounted, and the
    target is the position in the history of the message of the first match,
    which has become the current match. *)
Theorem reindex_scrolls_only_on_new_term (toLowerCase : string -> string)
        (st : WidgetState) :
  let st' := Later.refreshSearch toLowerCase st in
  (searchTerm (config st) = prevSearchTerm st -> log st' = log st)
  /\ (log st' = log st
      \/ exists r0 i item,
          log st' = log st ++ [ScrollToIndex i]
          /\ searchTerm (config st) <> prevSearchTerm st
          /\ virtuosoMounted st = true
          /\ hd_error (matches st') = Some r0
          /\ currentMatch st' = Some r0
          /\ messageIndex r0 = Some i
          /\ nth_error (history st) i = Some item).
Proof.
  apply later_refreshSearch_log.
Qed.

(** X13. In the later hook the viewport is only ever scrolled to the message
    of the current match: an event adds at most one entry to the log of
    collaborator calls; if it is a scroll instruction, its target is the
    message index of the current match after the event; if it is a query of
    the container, the visible highlights are what the query returned. *)
Theorem later_scrolls_only_to_current (toLowerCase : string -> string)
        (searchWithinContainer : HighlightQuery -> list SearchMatch)
        (e : Event) (st st' : WidgetState) :
  Later.handle toLowerCase searchWithinContainer e st = Some st' ->
  log st' = log st
  \/ (exists i m, log st' = log st ++ [ScrollToIndex i]
                  /\ currentMatch st' = Some m /\ messageIndex m = Some i)
  \/ (exists q, log st' = log st ++ [SearchWithinContainer q]
                /\ visibleHighlights st' = searchWithinContainer q).
Proof.
  assert (Hscroll : forall m s,
             log (scrollToMatch m s) = log s
             \/ exists i m', log (scrollToMatch m s) = log s ++ [ScrollToIndex i]
                             /\ currentMatch (scrollToMatch m s) = Some m'
                             /\ messageIndex m' = Some i).
  { intros m s. unfold scrollToMatch. destruct (messageIndex m) as [i|] eqn:Ei;
      [|now left].
    destruct (virtuosoMounted s); [|now left].
    right. exists i, m. cbn. auto. }
  assert (Hnav : forall s s', nextMatch s = Some s' \/ previousMatch s = Some s' ->
             log s' = log s
             \/ exists i m', log s' = log s ++ [ScrollToIndex i]
                             /\ currentMatch s' = Some m'
                             /\ messageIndex m' = Some i).
  { intros s s' H. unfold nextMatch, previousMatch, scrollToNth in H.
    destruct (currentMatch s) as [cm|];
      [|destruct H as [H|H]; inversion H; now left].
    destruct (List.length (matches s) =? 0);
      [destruct H as [H|H]; inversion H; now left|].
    destruct H as [H|H];
      match type of H with
      | match nth_error ?l ?k with _ => _ end = _ =>
          destruct (nth_error l k) as [m|]; [|discriminate H]
      end; inversion H; subst; apply Hscroll. }
  intros H.
  destruct e; cbn [Later.handle] in H;
    try (inversion H; subst; now left).
  - destruct (Hnav st st' (or_introl H)) as [E|E]; auto.
  - destruct (Hnav st st' (or_intror H)) as [E|E]; auto.
  - inversion H; subst; clear H. unfold Later.searchEffect.
    destruct (disabled st || negb (open st)); [now left|].
    destruct (proj2 (later_refreshSearch_log toLowerCase st))
      as [E|(r0 & i & item & E & _ & _ & _ & Hc & Hi & _)]; [now left|].
    right; left. exists i, r0. auto.
  - destruct (pendingTimeouts st) as [|q rest]; inversion H; subst; [now left|].
    right; right. exists q. cbn. auto.
  - destruct (open st); inversion H; subst; [|now left].
    right; right. exists (highlightQueryOf st). cbn. auto.
  - inversion H; subst. right; right. exists (highlightQueryOf st). cbn. auto.
Qed.

(** ** The earlier revision: what a re-index selects *)

Lemma earlier_refreshSearch_only_matches (toLowerCase : string -> string)
      (scrollTo : Earlier.ScrollToMatchOption) (st : WidgetState) :
  scrollTo = Earlier.closest \/ String.length (searchTerm (config st)) <= 1 ->
  let st' := Earlier.refreshSearch toLowerCase scrollTo st in
  st' = setMatches (matches st') st.
Proof.
  intros H. cbv zeta. unfold Earlier.refreshSearch.
  destruct (scanHistory toLowerCase Earlier.pushMatch (config st) (history st))
    as [results|]; [|reflexivity].
  destruct H as [->|H].
  - destruct (_ && _); [|reflexivity]. destruct results; reflexivity.
  - replace (1 <? String.length (searchTerm (config st))) with false
      by (symmetry; apply Nat.ltb_ge; exact H).
    reflexivity.
Qed.

(** X14. In the earlier revision a re-index selects nothing when it is asked
    for the "closest" match or when the term has at most one code unit: the
    match list is replaced, and the current match, the scroll log and
    everything else in the state are what they were. *)
Theorem earlier_reindex_without_selection (toLowerCase : string -> string)
        (scrollTo : Earlier.ScrollToMatchOption) (st : WidgetState) :
  scrollTo = Earlier.closest \/ String.length (searchTerm (config st)) <= 1 ->
  let st' := Earlier.refreshSearch toLowerCase scrollTo st in
  st' = setMatches (matches st') st
  /\ currentMatch st' = currentMatch st
  /\ log st' = log st.
Proof.
  intros H. cbv zeta.
  pose proof (earlier_refreshSearch_only_matches toLowerCase scrollTo st H) as E.
  cbv zeta in E. split; [exact E|]. rewrite E. split; reflexivity.
Qed.

(** X15. In the earlier revision every re-index of an open, enabled widget
    with a term of more than one code unit that finds something makes the
    first match the current one, whether or not the term has changed and
    whatever the current match was. *)
Theorem earlier_reindex_resets_to_first (toLowerCase : string -> string)
        (st : WidgetState) :
  disabled st = false -> open st = true ->
  1 < String.length (searchTerm (config st)) ->
  let st' := Earlier.searchEffect toLowerCase st in
  matches st' <> [] ->
  exists r0, hd_error (matches st') = Some r0 /\ currentMatch st' = Some r0.
Proof.
  intros Hd Ho Hl. cbv zeta. unfold Earlier.searchEffect, Earlier.refreshSearch.
  rewrite Hd, Ho. cbn [orb negb].
  destruct (scanHistory toLowerCase Earlier.pushMatch (config st) (history st))
    as [results|]; [|intros H; now contradiction H].
  apply Nat.ltb_lt in Hl. rewrite Hl.
  destruct results as [|r0 rest]; [intros H; now contradiction H|].
  intros _. exists r0. cbn [List.length Nat.eqb negb andb].
  unfold scrollToMatch. destruct (messageIndex r0); cbn;
    try destruct (virtuosoMounted st); cbn; auto.
Qed.

(** X16. In the earlier revision a term of one code unit can leave a current
    match whose ordinal is beyond the new list: when the re-index finds fewer
    matches than that ordinal (and at least one), the next call of
    [previous] throws. *)
Theorem earlier_short_term_breaks_previous (toLowerCase : string -> string)
        (st : WidgetState) (cm : SearchMatch) :
  String.length (searchTerm (config st)) <= 1 ->
  currentMatch st = Some cm ->
  let st' := Earlier.searchEffect toLowerCase st in
  0 < List.length (matches st') ->
  List.length (matches st') < index cm ->
  previousMatch st' = None.
Proof.
  intros Hl Hc. cbv zeta. intros Hn Hi.
  apply previousMatch_throws_iff. exists cm. repeat split; auto.
  unfold Earlier.searchEffect.
  destruct (disabled st || negb (open st)); [exact Hc|].
  pose proof (earlier_refreshSearch_only_matches toLowerCase Earlier.first st
                (or_intror Hl)) as E.
  cbv zeta in E. rewrite E. exact Hc.
Qed.

(** ** Following the output *)

Lemma last_default_irrelevant {A : Type} (l : list A) (a d d' : A) :
  last (a :: l) d = last (a :: l) d'.
Proof.
  revert a; induction l as [|b l IH]; intros a; [reflexivity|].
  cbn [last] in *. apply IH.
Qed.

Lemma afterReports_last (reports : list bool) :
  ChatScroll.afterReports reports = last reports true.
Proof.
  unfold ChatScroll.afterReports, ChatScroll.initialShouldAutoScroll.
  generalize true as init.
  induction reports as [|b rest IH]; intros init; [reflexivity|].
  cbn [fold_left]. unfold ChatScroll.handleAtBottomStateChange at 2.
  rewrite IH. destruct rest as [|c rest]; [reflexivity|].
  cbn [last]. apply last_default_irrelevant.
Qed.

(** X17. Whether new output is followed depends only on streaming and on the
    last at-bottom state the list reported (at the bottom, before any
    report): [handleFollowOutput] answers "auto" exactly when the chat is
    streaming and that state is true, whatever argument it is called
    with. *)
Theorem follow_output_tracks_last_report (isStreaming isAtBottom : bool)
        (reports : list bool) :
  ChatScroll.handleFollowOutput isStreaming isAtBottom
                                (ChatScroll.afterReports reports)
  = ChatScroll.FollowAuto
  <-> isStreaming = true /\ last reports true = true.
Proof.
  rewrite afterReports_last. unfold ChatScroll.handleFollowOutput.
  destruct isStreaming, (last reports true); cbn; split;
    try (intros [? ?]); try discriminate; auto.
Qed.

(** X18. The scroll on mount stays inside the history: a timer is set
    exactly when the history is not empty and the handle is mounted; its
    target is the last index of the history; and when it fires it issues at
    most one instruction, a scroll to that index. *)
Theorem initial_scroll_in_bounds (historyLength : nat) (mounted : bool) :
  (ChatScroll.initialScrollTimer historyLength mounted = None
   <-> historyLength = 0 \/ mounted = false)
  /\ forall target,
       ChatScroll.initialScrollTimer historyLength mounted = Some target ->
       target < historyLength /\ S target = historyLength
       /\ forall mountedNow,
            List.length (ChatScroll.timerFires target mountedNow) <= 1
            /\ forall e, In e (ChatScroll.timerFires target mountedNow) ->
                         e = ChatScroll.ScrollToIndexEnd (historyLength - 1).
Proof.
  unfold ChatScroll.initialScrollTimer, ChatScroll.timerFires.
  destruct historyLength as [|n], mounted; cbn [Nat.ltb Nat.leb andb]; split;
    try (split; [discriminate | intros [H|H]; discriminate H]);
    try (split; auto; fail);
    try (intros target H; discriminate H).
  intros target H. inversion H; subst. rewrite Nat.sub_0_r.
  split; [lia|]. split; [reflexivity|].
  intros mountedNow. destruct mountedNow; cbn; (split; [lia|]).
  - intros e [<-|[]]. f_equal. lia.
  - intros e [].
Qed.

(** ** Compacting a conversation *)

(** Case analysis on what each call of [compactConversation] does in a
    world, for a session id that is not empty. *)
Ltac compaction_cases w Hs :=
  unfold Compaction.trace, Compaction.compactConversation,
    Compaction.tryCatchFinally, Compaction.bind, Compaction.call,
    Compaction.dispatchLoadSession, Compaction.ret;
  rewrite Hs; cbn;
  repeat match goal with
         | |- context [Compaction.throws w ?a] =>
             let T := fresh "T" in
             destruct (Compaction.throws w a) eqn:T; cbn
         | |- context [match Compaction.loadStatus w with _ => _ end] =>
             let L := fresh "L" in
             destruct (Compaction.loadStatus w) eqn:L; cbn
         end.

(** X19. With a session id, whatever the collaborators do (any call may
    throw, the reload may be rejected), the calls of [compactConversation]
    begin with the loading flag of the index being set and end with it being
    cleared, and the flag is touched nowhere in between.  Without a session
    id no call is made at all. *)
Theorem compaction_always_clears_loading (w : Compaction.World)
        (currentSessionId : string) (index : nat) :
  (currentSessionId = "" ->
   Compaction.trace (Compaction.compactConversation currentSessionId index) w = [])
  /\ (currentSessionId <> "" ->
      exists between,
        Compaction.trace (Compaction.compactConversation currentSessionId index) w
        = Compaction.SetCompactionLoading index true
          :: between ++ [Compaction.SetCompactionLoading index false]
        /\ forall i b, ~ In (Compaction.SetCompactionLoading i b) between).
Proof.
  split.
  - intros ->. reflexivity.
  - intros Hs. apply String.eqb_neq in Hs.
    exists (removelast
              (tl (Compaction.trace
                     (Compaction.compactConversation currentSessionId index) w))).
    compaction_cases w Hs;
      (split; [reflexivity|]);
      intros i b H;
      repeat (destruct H as [H|H]; [discriminate H|]); exact H.
Qed.

(** X20. The calls of [compactConversation] are made in order, each only
    after the one before has returned: the request to compact exactly when
    setting the flag and saving the session returned, the reload exactly
    when the request returned too, the recalculation of the context
    percentage exactly when the reload returned too and was fulfilled; and
    [console.error] is called exactly when one of these calls threw. *)
Theorem compaction_steps_in_order (w : Compaction.World)
        (currentSessionId : string) (index : nat) :
  currentSessionId <> "" ->
  let t := Compaction.trace
             (Compaction.compactConversation currentSessionId index) w in
  let setFlag := Compaction.throws w (Compaction.SetCompactionLoading index true) in
  let save := Compaction.throws w (Compaction.SaveCurrentSession false false) in
  let request := Compaction.throws w (Compaction.RequestCompact index currentSessionId) in
  let load := Compaction.throws w (Compaction.LoadSession currentSessionId false) in
  let calculate := Compaction.throws w Compaction.CalculateContextPercentage in
  (In (Compaction.RequestCompact index currentSessionId) t
   <-> setFlag = false /\ save = false)
  /\ (In (Compaction.LoadSession currentSessionId false) t
      <-> setFlag = false /\ save = false /\ request = false)
  /\ (In Compaction.CalculateContextPercentage t
      <-> setFlag = false /\ save = false /\ request = false /\ load = false
          /\ Compaction.loadStatus w = Compaction.fulfilled)
  /\ (In Compaction.ConsoleError t
      <-> setFlag = true \/ save = true \/ request = true \/ load = true
          \/ (Compaction.loadStatus w = Compaction.fulfilled /\ calculate = true)).
Proof.
  intros Hs. apply String.eqb_neq in Hs. cbv zeta.
  compaction_cases w Hs;
    intuition (try discriminate; try congruence).
Qed.

(** ** The visible highlights of the later revision *)

Lemma lastQuery_app (l : list Effect) (e : Effect) :
  lastQuery (l ++ [e])
  = match e with
    | SearchWithinContainer q => Some q
    | ScrollToIndex _ => lastQuery l
    end.
Proof.
  induction l as [|a l IH]; [destruct e; reflexivity|].
  cbn [app lastQuery]. rewrite IH. destruct e; [|reflexivity].
  destruct (lastQuery l); reflexivity.
Qed.

Lemma scrollToMatch_highlights (m : SearchMatch) (st : WidgetState) :
  visibleHighlights (scrollToMatch m st) = visibleHighlights st
  /\ lastQuery (log (scrollToMatch m st)) = lastQuery (log st).
Proof.
  unfold scrollToMatch. destruct (messageIndex m); [|now split].
  destruct (virtuosoMounted st); [|now split].
  cbn. now rewrite lastQuery_app.
Qed.

Lemma later_handle_highlights (toLowerCase : string -> string)
      (searchWithinContainer : HighlightQuery -> list SearchMatch)
      (e : Event) (st st' : WidgetState) :
  Later.handle toLowerCase searchWithinContainer e st = Some st' ->
  (visibleHighlights st' = visibleHighlights st
   /\ lastQuery (log st') = lastQuery (log st))
  \/ exists q, visibleHighlights st' = searchWithinContainer q
               /\ lastQuery (log st') = Some q.
Proof.
  assert (Hnav : forall s s', nextMatch s = Some s' \/ previousMatch s = Some s' ->
             visibleHighlights s' = visibleHighlights s
             /\ lastQuery (log s') = lastQuery (log s)).
  { intros s s' H. unfold nextMatch, previousMatch, scrollToNth in H.
    destruct (currentMatch s) as [cm|];
      [|destruct H as [H|H]; inversion H; now split].
    destruct (List.length (matches s) =? 0);
      [destruct H as [H|H]; inversion H; now split|].
    destruct H as [H|H];
      match type of H with
      | match nth_error ?l ?k with _ => _ end = _ =>
          destruct (nth_error l k) as [m|]; [|discriminate H]
      end; inversion H; subst; apply scrollToMatch_highlights. }
  intros H.
  destruct e; cbn [Later.handle] in H;
    try (inversion H; subst; left; now split).
  - left. apply Hnav. now left.
  - left. apply Hnav. now right.
  - inversion H; subst; clear H. left. unfold Later.searchEffect.
    destruct (disabled st || negb (open st)); [now split|].
    unfold Later.refreshSearch.
    destruct (scanHistory _ _ _ _) as [results|]; [|now split].
    destruct (negb _).
    + destruct results as [|r0 rest]; [now split|].
      cbn [visibleHighlights log setPendingTimeouts].
      destruct (scrollToMatch_highlights
                  r0 (setPrevSearchTerm (searchTerm (config st))
                                        (setMatches (r0 :: rest) st))) as [E1 E2].
      now split.
    + destruct (currentMatch st) as [cm|].
      * destruct (find _ _); now split.
      * destruct results; now split.
  - destruct (pendingTimeouts st) as [|q rest]; inversion H; subst;
      [left; now split|].
    right. exists q. cbn. now rewrite lastQuery_app.
  - destruct (open st); inversion H; subst; [|left; now split].
    right. exists (highlightQueryOf st). cbn. now rewrite lastQuery_app.
  - inversion H; subst. right. exists (highlightQueryOf st). cbn.
    now rewrite lastQuery_app.
Qed.

(** X21. In the later revision the visible highlights are always the answer
    of the container to its most recent query: in every state reached from
    the mount they are what [searchWithinContainer] returned for the last
    query in the log, and empty if the container was never queried. *)
Theorem later_highlights_are_last_answer (toLowerCase : string -> string)
        (searchWithinContainer : HighlightQuery -> list SearchMatch)
        (es : list Event) (h : list ChatHistoryItemWithMessageId)
        (isDisabled mounted : bool) (st : WidgetState) :
  Later.run toLowerCase searchWithinContainer es
            (initialState h isDisabled mounted) = Some st ->
  visibleHighlights st
  = match lastQuery (log st) with
    | Some q => searchWithinContainer q
    | None => []
    end.
Proof.
  assert (Hinit : visibleHighlights (initialState h isDisabled mounted)
                  = match lastQuery (log (initialState h isDisabled mounted)) with
                    | Some q => searchWithinContainer q
                    | None => []
                    end) by reflexivity.
  revert Hinit. generalize (initialState h isDisabled mounted) as s0.
  induction es as [|e es IH]; intros s0 Hinv H.
  - inversion H; subst. exact Hinv.
  - cbn [Later.run] in H.
    destruct (Later.handle toLowerCase searchWithinContainer e s0) as [s1|] eqn:E;
      [|discriminate H].
    apply (IH s1); [|exact H].
    destruct (later_handle_highlights _ _ _ _ _ E) as [[E1 E2]|[q [E1 E2]]].
    + now rewrite E1, E2.
    + now rewrite E1, E2.
Qed.

(** ** The further theorems at concrete states *)

Lemma message_matched_iff_contains_witness :
  let st := Scenario.browsing in
  (queryOf asciiToLowerCase (config st) <> ""
   /\ nth_error (history st) 1
      = Some (Scenario.assistant "m1" "ok, FIND ME again find"))
  /\ exists m, In m (matches (Later.refreshSearch asciiToLowerCase st))
               /\ messageIndex m = Some 1.
Proof.
  cbv zeta.
  assert (H1 : queryOf asciiToLowerCase (config Scenario.browsing) <> "")
    by (vm_compute; discriminate).
  split; [split; [exact H1 | reflexivity] |].
  apply (proj2 (message_matched_iff_contains asciiToLowerCase Scenario.browsing 1
                  (Scenario.assistant "m1" "ok, FIND ME again find")
                  H1 eq_refl)).
  split; [reflexivity | exists 4; reflexivity].
Defined.

Lemma later_widget_stays_navigable_witness :
  ordinalsArePositions (matches Cases.searched)
  /\ (matches Cases.searched <> [] ->
      exists cm, currentMatch Cases.searched = Some cm
                 /\ In cm (matches Cases.searched)).
Proof.
  exact (later_widget_stays_navigable asciiToLowerCase Scenario.oneHighlight
           [OpenShortcut; TermEmitted "find"; SearchEffectRuns; TimeoutFires; Next]
           Scenario.history1 false true Cases.searched eq_refl).
Defined.

Lemma counter_label_in_range_witness :
  (matches Cases.searched = [] /\ counterLabel Cases.searched = NoResults)
  \/ exists k, counterLabel Cases.searched
               = Position k (List.length (matches Cases.searched))
               /\ 1 <= k <= List.length (matches Cases.searched).
Proof.
  exact (counter_label_in_range asciiToLowerCase Scenario.oneHighlight
           [OpenShortcut; TermEmitted "find"; SearchEffectRuns; TimeoutFires; Next]
           Scenario.history1 false true Cases.searched eq_refl).
Defined.

Lemma reindex_never_advances_witness :
  let st := Cases.onSecondOccurrence in
  let cm := Scenario.m 2 1 "m1" in
  In cm (Later.indexMatches asciiToLowerCase (config st) (history st))
  /\ exists r, currentMatch (Later.refreshSearch asciiToLowerCase st) = Some r
               /\ index r <= index cm.
Proof.
  cbv zeta.
  assert (H1 : queryOf asciiToLowerCase (config Cases.onSecondOccurrence) <> "")
    by (vm_compute; discriminate).
  assert (H4 : In (Scenario.m 2 1 "m1")
                  (Later.indexMatches asciiToLowerCase
                     (config Cases.onSecondOccurrence)
                     (history Cases.onSecondOccurrence)))
    by (right; right; left; reflexivity).
  split; [exact H4|].
  destruct (reindex_never_advances asciiToLowerCase Cases.onSecondOccurrence
              (Scenario.m 2 1 "m1") H1 eq_refl eq_refl H4)
    as [r (Hc & _ & _ & Hi & _)].
  exists r. split; assumption.
Defined.

Lemma later_scrolls_only_to_current_witness :
  let st := Scenario.browsing in
  let st' := scrollToMatch (Scenario.m 2 1 "m1") st in
  Later.handle asciiToLowerCase Scenario.oneHighlight Next st = Some st'
  /\ (log st' = log st
      \/ (exists i m, log st' = log st ++ [ScrollToIndex i]
                      /\ currentMatch st' = Some m /\ messageIndex m = Some i)
      \/ (exists q, log st' = log st ++ [SearchWithinContainer q]
                    /\ visibleHighlights st' = Scenario.oneHighlight q)).
Proof.
  cbv zeta. split; [reflexivity|].
  exact (later_scrolls_only_to_current asciiToLowerCase Scenario.oneHighlight
           Next Scenario.browsing
           (scrollToMatch (Scenario.m 2 1 "m1") Scenario.browsing) eq_refl).
Defined.

Lemma earlier_reindex_without_selection_witness :
  let st := Cases.shortened in
  let st' := Earlier.refreshSearch asciiToLowerCase Earlier.first st in
  String.length (searchTerm (config st)) <= 1
  /\ currentMatch st' = currentMatch st /\ log st' = log st.
Proof.
  cbv zeta.
  assert (H : String.length (searchTerm (config Cases.shortened)) <= 1)
    by (vm_compute; lia).
  split; [exact H|].
  exact (proj2 (earlier_reindex_without_selection asciiToLowerCase Earlier.first
                  Cases.shortened (or_intror H))).
Defined.

Lemma earlier_reindex_resets_to_first_witness :
  let st := Scenario.browsing in
  let st' := Earlier.searchEffect asciiToLowerCase st in
  (1 < String.length (searchTerm (config st)) /\ matches st' <> [])
  /\ exists r0, hd_error (matches st') = Some r0 /\ currentMatch st' = Some r0.
Proof.
  cbv zeta.
  assert (H1 : 1 < String.length (searchTerm (config Scenario.browsing)))
    by (vm_compute; lia).
  assert (H2 : matches (Earlier.searchEffect asciiToLowerCase Scenario.browsing)
               <> [])
    by (vm_compute; discriminate).
  split; [split; assumption|].
  exact (earlier_reindex_resets_to_first asciiToLowerCase Scenario.browsing
           eq_refl eq_refl H1 H2).
Defined.

Lemma earlier_short_term_breaks_previous_witness :
  let st := Cases.shortened in
  let st' := Earlier.searchEffect asciiToLowerCase st in
  List.length (matches st') = 1
  /\ previousMatch st' = None.
Proof.
  cbv zeta. split; [reflexivity|].
  assert (H1 : String.length (searchTerm (config Cases.shortened)) <= 1)
    by (vm_compute; lia).
  assert (H3 : 0 < List.length
                     (matches (Earlier.searchEffect asciiToLowerCase
                                                    Cases.shortened)))
    by (vm_compute; lia).
  assert (H4 : List.length
                 (matches (Earlier.searchEffect asciiToLowerCase
                                                Cases.shortened))
               < index (mkSearchMatch 2 (Some 1) None None))
    by (vm_compute; lia).
  exact (earlier_short_term_breaks_previous asciiToLowerCase Cases.shortened
           (mkSearchMatch 2 (Some 1) None None) H1 eq_refl H3 H4).
Defined.

Lemma compaction_steps_in_order_witness :
  let t := Compaction.trace (Compaction.compactConversation "s1" 3)
                            Cases.requestFails in
  "s1" <> ""
  /\ In Compaction.ConsoleError t
  /\ ~ In (Compaction.LoadSession "s1" false) t.
Proof.
  cbv zeta.
  assert (H : "s1" <> "") by discriminate.
  split; [exact H|].
  destruct (compaction_steps_in_order Cases.requestFails "s1" 3 H)
    as (_ & Hload & _ & Herr).
  split.
  - apply (proj2 Herr). right; right; left; reflexivity.
  - intros Hin. apply (proj1 Hload) in Hin. destruct Hin as (_ & _ & Hr).
    discriminate Hr.
Defined.

Lemma later_highlights_are_last_answer_witness :
  visibleHighlights Cases.searched
  = match lastQuery (log Cases.searched) with
    | Some q => Scenario.oneHighlight q
    | None => []
    end.
Proof.
  exact (later_highlights_are_last_answer asciiToLowerCase Scenario.oneHighlight
           [OpenShortcut; TermEmitted "find"; SearchEffectRuns; TimeoutFires; Next]
           Scenario.history1 false true Cases.searched eq_refl).
Defined.

(** A query found across the boundary of two text parts with an image part
    between them. *)
Example match_across_parts :
  Later.indexMatches asciiToLowerCase (mkConfig "find" true false) Cases.inParts
  = [Scenario.m 0 0 "p0"].
Proof. reflexivity. Qed.

(** The re-index of the unchanged term takes the current match from the
    second occurrence in its message back to the first. *)
Example second_occurrence_falls_back :
  currentMatch (Later.refreshSearch asciiToLowerCase Cases.onSecondOccurrence)
  = Some (Scenario.m 1 1 "m1").
Proof. reflexivity. Qed.

(** ** Navigation in the running later hook *)

Lemma later_run_app (toLowerCase : string -> string)
      (searchWithinContainer : HighlightQuery -> list SearchMatch)
      (es es' : list Event) (st : WidgetState) :
  Later.run toLowerCase searchWithinContainer (es ++ es') st
  = match Later.run toLowerCase searchWithinContainer es st with
    | Some st' => Later.run toLowerCase searchWithinContainer es' st'
    | None => None
    end.
Proof.
  revert st; induction es as [|e es IH]; intros st; [reflexivity|].
  cbn [app Later.run].
  destruct (Later.handle toLowerCase searchWithinContainer e st); [apply IH|].
  reflexivity.
Qed.

(** A state of the search for "find" in [Scenario.history1], with its
    fields that the search does not fix left as they are. *)
Ltac searching_state s H :=
  destruct s as [h d v hh o cfg ms cur vis prev int pend lg];
  destruct H as (Hh & Hd & Ho & Hcfg & Hprev & Hms & Hcur);
  cbn in Hh, Hd, Ho, Hcfg, Hprev, Hms, Hcur; subst;
  destruct v.

Lemma pressNext_from_first_or_second (s : WidgetState) (c : SearchMatch) :
  c = Scenario.m 0 0 "m0" \/ c = Scenario.m 1 1 "m1" ->
  Running.searching c s ->
  exists s',
    Later.run asciiToLowerCase Scenario.oneHighlight Running.pressNext s = Some s'
    /\ Running.searching (Scenario.m 1 1 "m1") s'.
Proof.
  intros Hc H. searching_state s H;
    destruct Hc as [Hc|Hc]; inversion Hc; subst;
    eexists; (split; [reflexivity|]); repeat split.
Qed.

Lemma pressPrevious_from_second (s : WidgetState) :
  Running.searching (Scenario.m 1 1 "m1") s ->
  exists s',
    Later.run asciiToLowerCase Scenario.oneHighlight Running.pressPrevious s
    = Some s'
    /\ Running.searching (Scenario.m 0 0 "m0") s'.
Proof.
  intros H. searching_state s H;
    eexists; (split; [reflexivity|]); repeat split.
Qed.

Lemma presses_stay_on_second (n : nat) (s : WidgetState) (c : SearchMatch) :
  c = Scenario.m 0 0 "m0" \/ c = Scenario.m 1 1 "m1" ->
  Running.searching c s ->
  exists s',
    Later.run asciiToLowerCase Scenario.oneHighlight (Running.presses (S n)) s
    = Some s'
    /\ Running.searching (Scenario.m 1 1 "m1") s'.
Proof.
  revert s c; induction n as [|n IH]; intros s c Hc H;
    destruct (pressNext_from_first_or_second s c Hc H) as [s1 [E1 H1]];
    cbn [Running.presses]; rewrite later_run_app, E1.
  - exists s1. split; [reflexivity | exact H1].
  - apply (IH s1 (Scenario.m 1 1 "m1")); [now right | exact H1].
Qed.

(** C4.  In the running later hook the presses of [next] do not cycle.  The
    search for "find" in the history of scenario 1 has three matches, the
    first in the first message and two in the second, and settles on the
    first.  Every press of [next] is followed by a run of the search effect,
    which takes the current match back to the first match of its message:
    after any number of presses, three among them, the current match is the
    second match, so the first is never reached again and the third never
    stays.  And [previous] does not undo [next]: from the second match, one
    press of [next] and one of [previous] end on the first. *)
Theorem next_presses_do_not_cycle :
  Running.searching (Scenario.m 0 0 "m0") Running.found
  /\ List.length (matches Running.found) = 3
  /\ (forall n, exists st,
        Later.run asciiToLowerCase Scenario.oneHighlight
                  (Running.presses (S n)) Running.found = Some st
        /\ matches st = matches Running.found
        /\ currentMatch st = Some (Scenario.m 1 1 "m1")
        /\ currentMatch st <> currentMatch Running.found)
  /\ (forall st, Running.searching (Scenario.m 1 1 "m1") st ->
        exists st',
          Later.run asciiToLowerCase Scenario.oneHighlight
                    (Running.pressNext ++ Running.pressPrevious) st = Some st'
          /\ currentMatch st' = Some (Scenario.m 0 0 "m0")
          /\ currentMatch st' <> currentMatch st).
Proof.
  assert (Hfound : Running.searching (Scenario.m 0 0 "m0") Running.found)
    by (repeat split).
  split; [exact Hfound|]. split; [reflexivity|]. split.
  - intros n.
    destruct (presses_stay_on_second n Running.found (Scenario.m 0 0 "m0")
                (or_introl eq_refl) Hfound) as [st [E H]].
    exists st. destruct H as (_ & _ & _ & _ & _ & Hms & Hcur).
    split; [exact E|]. split; [exact Hms|]. split; [exact Hcur|].
    rewrite Hcur. discriminate.
  - intros st H.
    destruct (pressNext_from_first_or_second st _ (or_intror eq_refl) H)
      as [s1 [E1 H1]].
    destruct (pressPrevious_from_second s1 H1) as [s2 [E2 H2]].
    exists s2. rewrite later_run_app, E1.
    destruct H as (_ & _ & _ & _ & _ & _ & Hcur).
    destruct H2 as (_ & _ & _ & _ & _ & _ & Hcur2).
    split; [exact E2|]. split; [exact Hcur2|].
    rewrite Hcur, Hcur2. discriminate.
Qed.

(** The same three presses, run. *)
Example three_presses_of_next :
  option_map currentMatch
             (Later.run asciiToLowerCase Scenario.oneHighlight
                        (Running.presses 3) Running.found)
  = Some (Some (Scenario.m 1 1 "m1"))
  /\ option_map currentMatch (repeatCall nextMatch 3 Running.found)
     = Some (Some (Scenario.m 0 0 "m0")).
Proof. split; reflexivity. Qed.
